(** * serve.py: environment-file loader, config renderer and request handler

    A shallow embedding of [example/serve.py].  Python [str] values are
    sequences of Unicode code points, [bytes] values sequences of octets,
    the [env_vars] dictionary is a finite map from [str] to [str], and the
    calls that can raise (tuple unpacking, [str.encode]) return a [result]. *)

From Stdlib Require Import NArith String Ascii.
From stdpp Require Import gmap list pretty.

(** ** Strings and bytes *)

(** A Python [str] is a list of code points; [bytes] is a list of octets. *)
Abbreviation char := N (only parsing).
Abbreviation str := (list N) (only parsing).
Abbreviation bytes := (list N) (only parsing).

(** A string literal of the source, as a [str] (the literals are ASCII). *)
Definition lit (s : string) : str :=
  map N_of_ascii (list_ascii_of_string s).
Arguments lit s%_string.

Definition LF : char := 10%N.
Definition CR : char := 13%N.
Definition EQ : char := 61%N.
Definition HASH : char := 35%N.

(** Exceptions the modelled code can raise. *)
Inductive exn := ValueError | UnicodeEncodeError.

Inductive result (A : Type) :=
| Ok (a : A)
| Raise (e : exn).
Arguments Ok {A} a.
Arguments Raise {A} e.

#[global] Instance result_ret : MRet result := fun _ a => Ok a.
#[global] Instance result_bind : MBind result := fun _ _ k r =>
  match r with
  | Ok a => k a
  | Raise e => Raise e
  end.

(** A [for] loop whose body can raise. *)
Fixpoint for_each {A S} (body : S -> A -> result S) (xs : list A) (s : S)
  : result S :=
  match xs with
  | [] => Ok s
  | x :: xs' => s' ← body s x; for_each body xs' s'
  end.

(** [Py_UNICODE_ISSPACE]: the code points [str.strip()] removes. *)
Definition isspace (c : char) : bool :=
  ((0x09 <=? c) && (c <=? 0x0D) || (0x1C <=? c) && (c <=? 0x20)
   || (c =? 0x85) || (c =? 0xA0) || (c =? 0x1680)
   || (0x2000 <=? c) && (c <=? 0x200A)
   || (c =? 0x2028) || (c =? 0x2029) || (c =? 0x202F) || (c =? 0x205F)
   || (c =? 0x3000))%N.

Fixpoint lstrip (s : str) : str :=
  match s with
  | c :: s' => if isspace c then lstrip s' else s
  | [] => []
  end.

Definition rstrip (s : str) : str := reverse (lstrip (reverse s)).

(** [s.strip()] *)
Definition strip (s : str) : str := rstrip (lstrip s).

(** The truth value of a [str]: the empty string is false. *)
Definition truthy (s : str) : bool :=
  match s with
  | [] => false
  | _ :: _ => true
  end.

(** [s.startswith(p)] *)
Fixpoint startswith (p s : str) : bool :=
  match p, s with
  | [], _ => true
  | a :: p', b :: s' => (a =? b)%N && startswith p' s'
  | _ :: _, [] => false
  end.

(** [c in s] for a one-character [c] *)
Definition contains (c : char) (s : str) : bool := existsb (N.eqb c) s.

(** [s.find(c)] for a one-character [c]; [None] stands for [-1]. *)
Fixpoint find (c : char) (s : str) : option nat :=
  match s with
  | [] => None
  | d :: s' => if (d =? c)%N then Some 0 else S <$> find c s'
  end.

(** [s.split(c, 1)] for a one-character separator: at most one split, at
    the first occurrence. *)
Definition split1 (c : char) (s : str) : list str :=
  match find c s with
  | Some i => [take i s; drop (S i) s]
  | None => [s]
  end.

(** [a, b = parts] *)
Definition unpack2 (parts : list str) : result (str * str) :=
  match parts with
  | [a; b] => Ok (a, b)
  | _ => Raise ValueError
  end.

(** ** Reading the file *)

(** Text mode with the default [newline=None]: on input ["\r\n"] and a lone
    ["\r"] become ["\n"]. *)
Fixpoint universal_newlines (s : str) : str :=
  match s with
  | [] => []
  | c :: s' =>
    if (c =? CR)%N then
      match s' with
      | d :: s'' =>
        if (d =? LF)%N then LF :: universal_newlines s''
        else LF :: universal_newlines s'
      | [] => [LF]
      end
    else c :: universal_newlines s'
  end.

(** Iterating over a text file: the lines, each with its ["\n"] when it has
    one. *)
Fixpoint lines (s : str) : list str :=
  match s with
  | [] => []
  | c :: s' =>
    if (c =? LF)%N then [c] :: lines s'
    else match lines s' with
         | l :: ls => (c :: l) :: ls
         | [] => [[c]]
         end
  end.

(** [for line in f], for a file whose decoded contents are [text]. *)
Definition readlines (text : str) : list str :=
  lines (universal_newlines text).

(** ** load_env_file *)

(** The body of the loop of [load_env_file]. *)
Definition load_line (env_vars : gmap str str) (line : str)
  : result (gmap str str) :=
  let line := strip line in
  if truthy line && negb (startswith (lit "#") line) then
    if contains EQ line then
      '(key, value) ← unpack2 (split1 EQ line);
      Ok (<[strip key := strip value]> env_vars)
    else Ok env_vars
  else Ok env_vars.

(** The mapping of the [else] branch. *)
Definition default_env : gmap str str :=
  list_to_map
    [ (lit "N8N_API_BASE_URL", lit "http://localhost:5678/api/v1");
      (lit "N8N_API_KEY", lit "your-api-key-here");
      (lit "REFRESH_INTERVAL", lit "30000");
      (lit "DEBUG_MODE", lit "false") ].

(** [load_env_file()].  [env_file] is the path [Path(__file__).parent /
    'webapp.env'] as [print] shows it, [contents] the decoded text of that
    file, or [None] when it does not exist.  The result is the outcome of
    the call (the mapping returned, or the exception raised) and the lines
    it printed. *)
Definition load_env_file (env_file : str) (contents : option str)
  : result (gmap str str) * list str :=
  match contents with
  | Some text => (for_each load_line (readlines text) ∅, [])
  | None =>
    (Ok default_env,
     [lit "Warning: " ++ env_file ++ lit " not found. Using default values."])
  end.

(** ** The payload of /config.js *)

(** [d.get(key, default)] *)
Definition get (d : gmap str str) (key default : str) : str :=
  match d !! key with
  | Some v => v
  | None => default
  end.

(** The f-string [config_content] of [do_GET]. *)
Definition config_content (env_vars : gmap str str) : str :=
  lit "// Auto-generated configuration from webapp.env
// This file is generated at server startup

window.ENV = {
    N8N_API_BASE_URL: '"
  ++ get env_vars (lit "N8N_API_BASE_URL") (lit "http://localhost:5678/api/v1")
  ++ lit "',
    N8N_API_KEY: '"
  ++ get env_vars (lit "N8N_API_KEY") (lit "your-api-key-here")
  ++ lit "',
    REFRESH_INTERVAL: '"
  ++ get env_vars (lit "REFRESH_INTERVAL") (lit "30000")
  ++ lit "',
    DEBUG_MODE: '"
  ++ get env_vars (lit "DEBUG_MODE") (lit "false")
  ++ lit "'
};
".

(** [s.encode()]: UTF-8, one code point at a time.  A surrogate cannot be
    encoded; a [str] holds no code point from 0x110000 on. *)
Definition utf8_char (c : char) : result bytes :=
  (if c <? 0x80 then Ok [c]
   else if c <? 0x800 then
     Ok [N.lor 0xC0 (N.shiftr c 6); N.lor 0x80 (N.land c 0x3F)]
   else if c <? 0x10000 then
     if (0xD800 <=? c) && (c <=? 0xDFFF) then Raise UnicodeEncodeError
     else Ok [N.lor 0xE0 (N.shiftr c 12);
              N.lor 0x80 (N.land (N.shiftr c 6) 0x3F);
              N.lor 0x80 (N.land c 0x3F)]
   else if c <? 0x110000 then
     Ok [N.lor 0xF0 (N.shiftr c 18);
         N.lor 0x80 (N.land (N.shiftr c 12) 0x3F);
         N.lor 0x80 (N.land (N.shiftr c 6) 0x3F);
         N.lor 0x80 (N.land c 0x3F)]
   else Raise UnicodeEncodeError)%N.

Fixpoint encode (s : str) : result bytes :=
  match s with
  | [] => Ok []
  | c :: s' => b ← utf8_char c; bs ← encode s'; Ok (b ++ bs)
  end.

(** ** The request handler *)

(** The second argument of [send_header]: a [str] or an [int]. *)
Inductive hval :=
| HStr (s : str)
| HInt (n : nat).

(** What a handler has sent: the code given to [send_response], the
    headers given to [send_header] in the order of the calls, whether the
    header block was ended, and the bytes written to [wfile]. *)
Record response := Response {
  status : option N;
  headers : list (str * hval);
  ended : bool;
  body : bytes }.

Definition nothing_sent : response := Response None [] false [].

Definition send_response (code : N) (r : response) : response :=
  Response (Some code) (headers r) (ended r) (body r).

Definition send_header (keyword : str) (value : hval) (r : response)
  : response :=
  Response (status r) (headers r ++ [(keyword, value)]) (ended r) (body r).

(** [end_headers] of the base class. *)
Definition super_end_headers (r : response) : response :=
  Response (status r) (headers r) true (body r).

Definition wfile_write (data : bytes) (r : response) : response :=
  Response (status r) (headers r) (ended r) (body r ++ data).

(** What a request is served from: the path of the environment file and
    its decoded contents ([None]: no such file), the files of the served
    directory by request path, with the content type the library infers,
    and the body of the library's error page. *)
Record world := World {
  env_file : str;
  webapp_env : option str;
  static_file : str -> option (str * bytes);
  error_page : bytes }.

(** Modelled from the spec: [do_GET] of the base class
    [http.server.SimpleHTTPRequestHandler] (standard library, not in the
    repository): a path that names a file of the served directory is
    answered 200 with the inferred content type and the file's bytes, any
    other path with the standard 404.  The header block is ended by a call
    of [self.end_headers()], so by the method of the subclass. *)
Definition simple_do_GET (self_end_headers : response -> response)
    (w : world) (path : str) (r : response) : response :=
  match static_file w path with
  | Some (ctype, data) =>
    let r := send_response 200 r in
    let r := send_header (lit "Content-type") (HStr ctype) r in
    let r := self_end_headers r in
    wfile_write data r
  | None =>
    let r := send_response 404 r in
    let r := self_end_headers r in
    wfile_write (error_page w) r
  end.

(** The class [ConfigInjectHandler]. *)
Module ConfigInjectHandler.

(** [end_headers]: the three headers, then [super().end_headers()]. *)
Definition end_headers (r : response) : response :=
  let r := send_header (lit "Access-Control-Allow-Origin") (HStr (lit "*")) r in
  let r := send_header (lit "Access-Control-Allow-Methods")
             (HStr (lit "GET, POST, OPTIONS")) r in
  let r := send_header (lit "Access-Control-Allow-Headers")
             (HStr (lit "Content-Type")) r in
  super_end_headers r.

(** [do_GET], for a request of [path]: the outcome (what was sent, or the
    exception raised) and the lines printed. *)
Definition do_GET (w : world) (path : str) : result response * list str :=
  if bool_decide (path = lit "/config.js") then
    let '(loaded, printed) := load_env_file (env_file w) (webapp_env w) in
    (env_vars ← loaded;
     let config_content := config_content env_vars in
     let r := send_response 200 nothing_sent in
     let r := send_header (lit "Content-type")
                (HStr (lit "application/javascript")) r in
     encoded ← encode config_content;
     let r := send_header (lit "Content-Length") (HInt (length encoded)) r in
     let r := end_headers r in
     encoded ← encode config_content;
     Ok (wfile_write encoded r),
     printed)
  else
    (Ok (simple_do_GET end_headers w path nothing_sent), []).

End ConfigInjectHandler.
Import ConfigInjectHandler.

(** [httpd.serve_forever()]: the requests are handled one after the other,
    each against the files as they are when it is handled; an exception in
    a handler is reported and the loop goes on. *)
Fixpoint serve_forever (requests : list (world * str))
  : list (result response) * list str :=
  match requests with
  | [] => ([], [])
  | (w, path) :: rest =>
    let '(r, printed) := do_GET w path in
    let '(rs, printed') := serve_forever rest in
    (r :: rs, printed ++ printed')
  end.

(** ** main *)

(** [s * n] *)
Definition str_mul (s : str) (n : nat) : str := concat (replicate n s).

(** [s[-4:]]: the last four characters, or all of [s] when it has fewer. *)
Definition last4 (s : str) : str := drop (length s - 4) s.

(** How an f-string shows [d.get(key)]: the value, or [None] for a key
    that [d] does not hold. *)
Definition format_get (d : gmap str str) (key : str) : str :=
  match d !! key with
  | Some v => v
  | None => lit "None"
  end.

(** [main()], for the run in which the server handles [requests] and is
    then interrupted from the keyboard.  [PORT] is the value of
    [int(os.environ.get('PORT', 8080))], [w] holds the files as they are
    at startup, and each request comes with the files as they are when it
    is handled.  The result is the lines printed and the outcome: the
    responses and the exit status, or the exception raised. *)
Definition main (PORT : Z) (w : world) (requests : list (world * str))
  : list str * result (list (result response) * Z) :=
  let title :=
    [str_mul (lit "=") 80;
     lit "n8n User Management Web Application";
     str_mul (lit "=") 80] in
  let '(loaded, printed) := load_env_file (env_file w) (webapp_env w) in
  match loaded with
  | Raise e => (title ++ printed, Raise e)
  | Ok env_vars =>
    let '(responses, served) := serve_forever requests in
    (title ++ printed ++
     [lit "
Configuration loaded:";
      lit "  N8N_API_BASE_URL: " ++ format_get env_vars (lit "N8N_API_BASE_URL");
      lit "  N8N_API_KEY: " ++ str_mul (lit "*") 8
        ++ last4 (get env_vars (lit "N8N_API_KEY") []);
      lit "  REFRESH_INTERVAL: " ++ format_get env_vars (lit "REFRESH_INTERVAL")
        ++ lit "ms";
      lit "  DEBUG_MODE: " ++ format_get env_vars (lit "DEBUG_MODE");
      lit "
Starting server on http://localhost:" ++ lit (pretty PORT);
      lit "Press Ctrl+C to stop the server
";
      str_mul (lit "=") 80]
     ++ served ++
     [lit "

Server stopped."],
     Ok (responses, 0%Z))
  end.

(** ** Vocabulary of the properties *)

(** The four keys the payload shows, in the order of the payload. *)
Definition known_keys : list str :=
  [lit "N8N_API_BASE_URL"; lit "N8N_API_KEY"; lit "REFRESH_INTERVAL";
   lit "DEBUG_MODE"].

(** [s] occurs in [t] as a substring. *)
Definition occurs_in (s t : str) : Prop := ∃ a b, t = a ++ s ++ b.

(** The text of the payload that gives [key] the single-quoted [value]. *)
Definition config_line (key value : str) : str :=
  lit "    " ++ key ++ lit ": '" ++ value ++ lit "'".

(** A line sets [key] to [value]: it is no comment, and [key] and [value]
    are what is left and right of its first ['='], without the whitespace
    around them. *)
Definition contributes (line key value : str) : Prop :=
  ∃ l r, line = l ++ EQ :: r ∧ (EQ ∉ l) ∧
         startswith (lit "#") (strip line) = false ∧
         key = strip l ∧ value = strip r.

(** A line of an environment file in canonical form: empty, a comment
    that starts in the first column, or [KEY=VALUE] without padding. *)
Inductive entry :=
| Blank
| Comment (text : str)
| Setting (key value : str).

Definition entry_line (e : entry) : str :=
  match e with
  | Blank => []
  | Comment text => HASH :: text
  | Setting key value => key ++ EQ :: value
  end.

Definition one_line (s : str) : Prop := (LF ∉ s) ∧ (CR ∉ s).

(** The canonical form the loader's results can be written in (it is
    narrower than what the loader accepts): a key holds no ['='] and does
    not start a comment; keys and values hold no line break and no
    whitespace at either end. *)
Definition canonical (e : entry) : Prop :=
  match e with
  | Blank => True
  | Comment text => one_line text
  | Setting key value =>
    one_line key ∧ one_line value ∧ (EQ ∉ key) ∧
    startswith (lit "#") key = false ∧ strip key = key ∧ strip value = value
  end.

(** ["\n".join(ls)] *)
Fixpoint unlines (ls : list str) : str :=
  match ls with
  | [] => []
  | [l] => l
  | l :: ls' => l ++ LF :: unlines ls'
  end.

(** The text of the file with the lines [entries]. *)
Definition env_text (entries : list entry) : str :=
  unlines (entry_line <$> entries).

(** What a line of a canonical file does to the mapping. *)
Definition apply_entry (m : gmap str str) (e : entry) : gmap str str :=
  match e with
  | Setting key value => <[key := value]> m
  | _ => m
  end.

(** The value the last line for [key] gives it. *)
Fixpoint file_value (key : str) (entries : list entry) : option str :=
  match entries with
  | [] => None
  | e :: rest =>
    match file_value key rest with
    | Some v => Some v
    | None =>
      match e with
      | Setting k v => if decide (k = key) then Some v else None
      | _ => None
      end
    end
  end.

(** A code point that UTF-8 can encode: no surrogate, below 0x110000. *)
Definition scalar (c : char) : bool :=
  ((c <? 0xD800) || (0xDFFF <? c) && (c <? 0x110000))%N.

(** Text as decoding a file gives it. *)
Definition decoded (s : str) : Prop := Forall (λ c, scalar c = true) s.

Definition decoded_world (w : world) : Prop :=
  match webapp_env w with
  | Some text => decoded text
  | None => True
  end.

(** The values sent for the header [keyword]. *)
Definition header (keyword : str) (r : response) : list hval :=
  snd <$> filter (λ h, h.1 = keyword) (headers r).

(** Loading the file, then rendering the mapping. *)
Definition load_then_render (env_file : str) (contents : option str)
  : result str :=
  env_vars ← (load_env_file env_file contents).1;
  Ok (config_content env_vars).

(** The payload with the four default values, written out. *)
Definition default_payload : str :=
  lit "// Auto-generated configuration from webapp.env
// This file is generated at server startup

window.ENV = {
    N8N_API_BASE_URL: 'http://localhost:5678/api/v1',
    N8N_API_KEY: 'your-api-key-here',
    REFRESH_INTERVAL: '30000',
    DEBUG_MODE: 'false'
};
".

(** The payload, as a function of the four values it shows. *)
Definition payload_with (v1 v2 v3 v4 : str) : str :=
  lit "// Auto-generated configuration from webapp.env
// This file is generated at server startup

window.ENV = {
    N8N_API_BASE_URL: '"
  ++ v1
  ++ lit "',
    N8N_API_KEY: '"
  ++ v2
  ++ lit "',
    REFRESH_INTERVAL: '"
  ++ v3
  ++ lit "',
    DEBUG_MODE: '"
  ++ v4
  ++ lit "'
};
".

(** [nl.join(ls)] *)
Fixpoint join_with (nl : str) (ls : list str) : str :=
  match ls with
  | [] => []
  | [l] => l
  | l :: ls' => l ++ nl ++ join_with nl ls'
  end.

(** The line [load_env_file] prints when the file is missing. *)
Definition missing_file_warning (env_file : str) : str :=
  lit "Warning: " ++ env_file ++ lit " not found. Using default values.".

(** A mapping, written as a file with one line for each entry. *)
Definition settings_of (m : gmap str str) : list entry :=
  (λ kv, Setting kv.1 kv.2) <$> map_to_list m.

(** Text of ASCII characters only. *)
Definition ascii_text (s : str) : Prop := Forall (λ c, (c < 128)%N) s.

(** What every entry of a loaded mapping is like: key and value have no
    whitespace around them and no line break in them, and the key holds no
    ['='] and does not start with ['#']. *)
Definition clean_entry (key value : str) : Prop :=
  strip key = key ∧ strip value = value ∧ (EQ ∉ key) ∧
  startswith (lit "#") key = false ∧ one_line key ∧ one_line value.

(** A line of a well-formed [KEY=VALUE] file: empty or whitespace only, a
    comment (its stripped form starts with ['#']), or a line with an
    ['='].  Padding around the line, the key and the value is allowed. *)
Definition well_formed_line (line : str) : Prop :=
  strip line = [] ∨ startswith (lit "#") (strip line) = true ∨ EQ ∈ line.

(** A well-formed [KEY=VALUE] file: every line of the text is one, whatever
    the style of its line endings. *)
Definition well_formed_file (text : str) : Prop :=
  Forall well_formed_line (readlines text).

(** The file gives [key] the value [value]: the last of its lines that set
    [key] sets it to [value]. *)
Definition file_sets (text key value : str) : Prop :=
  ∃ pre line post,
    readlines text = pre ++ line :: post ∧
    contributes line key value ∧
    ∀ line' value', line' ∈ post → ¬ contributes line' key value'.

(** The value the payload shows for [key]: that of the mapping, or the
    default. *)
Definition shown_value (env_vars : gmap str str) (key : str) : str :=
  get env_vars key (get default_env key []).

(** A file for the examples: CRLF line endings, an indented comment,
    padded keys and values, a whitespace-only line, a key that no one
    reads, and a key that is set twice. *)
Definition example_file : str :=
  join_with [CR; LF]
    [lit "  # n8n settings"; lit "N8N_API_KEY = k'1"; lit "   ";
     lit "EXTRA=x"; lit " N8N_API_KEY= k=2 "; lit "DEBUG_MODE=true"; []].

(** * Properties *)

(** ** Stripping *)

Section strip.
Implicit Types (s t : str) (c : char).

Lemma lstrip_suffix s : ∃ w, s = w ++ lstrip s ∧ forallb isspace w = true.
Proof.
  induction s as [|c s [w [Hs Hw]]]; [by exists []|].
  simpl. destruct (isspace c) eqn:Hc.
  - exists (c :: w). simpl. rewrite Hc, Hw. by rewrite <- Hs.
  - by exists [].
Qed.

Lemma lstrip_elem c s : c ∈ lstrip s → c ∈ s.
Proof.
  destruct (lstrip_suffix s) as [w [Hs _]]. intros Hc.
  rewrite Hs. apply elem_of_app. by right.
Qed.

Lemma lstrip_keeps c s : isspace c = false → c ∈ s → c ∈ lstrip s.
Proof.
  intros Hc. induction s as [|d s IH]; [done|].
  simpl. intros Hin. destruct (isspace d) eqn:Hd; [|done].
  apply elem_of_cons in Hin as [->|Hin]; [congruence|by apply IH].
Qed.

Lemma lstrip_length s : length (lstrip s) ≤ length s.
Proof.
  destruct (lstrip_suffix s) as [w [Hs _]].
  rewrite Hs at 2. rewrite length_app. lia.
Qed.

Lemma lstrip_head c s : isspace c = false → lstrip (c :: s) = c :: s.
Proof. intros Hc. simpl. by rewrite Hc. Qed.

Lemma lstrip_fixed s : lstrip s = s ↔ s = [] ∨ ∃ c s', s = c :: s' ∧ isspace c = false.
Proof.
  split.
  - destruct s as [|c s]; [by left|]. intros H. right. exists c, s.
    split; [done|]. simpl in H. destruct (isspace c) eqn:Hc; [|done].
    pose proof (lstrip_length s) as Hl. rewrite H in Hl. simpl in Hl. lia.
  - intros [->|(c & s' & -> & Hc)]; [done|by apply lstrip_head].
Qed.

Lemma lstrip_idemp s : lstrip (lstrip s) = lstrip s.
Proof.
  induction s as [|c s IH]; [done|]. simpl.
  destruct (isspace c) eqn:Hc; [done|]. simpl. by rewrite Hc.
Qed.

Lemma lstrip_app_fixed s t : s ≠ [] → lstrip s = s → lstrip (s ++ t) = s ++ t.
Proof.
  intros Hne Hs. apply lstrip_fixed in Hs as [->|(c & s' & -> & Hc)]; [done|].
  simpl. by rewrite Hc.
Qed.

Lemma lstrip_spaces_app w t : forallb isspace w = true → lstrip (w ++ t) = lstrip t.
Proof.
  induction w as [|c w IH]; [done|]. simpl.
  intros [Hc Hw]%andb_true_iff. rewrite Hc. by apply IH.
Qed.

Lemma rstrip_elem c s : c ∈ rstrip s → c ∈ s.
Proof.
  unfold rstrip. rewrite elem_of_reverse. intros H%lstrip_elem.
  by apply elem_of_reverse.
Qed.

Lemma rstrip_keeps c s : isspace c = false → c ∈ s → c ∈ rstrip s.
Proof.
  intros Hc Hin. unfold rstrip. apply elem_of_reverse, lstrip_keeps; [done|].
  by apply elem_of_reverse.
Qed.

Lemma rstrip_length s : length (rstrip s) ≤ length s.
Proof.
  unfold rstrip. rewrite length_reverse.
  etrans; [apply lstrip_length|]. by rewrite length_reverse.
Qed.

Lemma rstrip_snoc_space s c : isspace c = true → rstrip (s ++ [c]) = rstrip s.
Proof. intros Hc. unfold rstrip. rewrite reverse_snoc. simpl. by rewrite Hc. Qed.

Lemma rstrip_snoc s c : isspace c = false → rstrip (s ++ [c]) = s ++ [c].
Proof.
  intros Hc. unfold rstrip. rewrite reverse_snoc. simpl. rewrite Hc.
  by rewrite reverse_cons, reverse_involutive.
Qed.

Lemma rstrip_fixed s :
  rstrip s = s ↔ s = [] ∨ ∃ s' c, s = s' ++ [c] ∧ isspace c = false.
Proof.
  split.
  - destruct s as [|c s _] using rev_ind; [by left|]. intros H. right.
    exists s, c. split; [done|]. destruct (isspace c) eqn:Hc; [|done].
    rewrite rstrip_snoc_space in H by done.
    pose proof (rstrip_length s) as Hl. rewrite H, length_app in Hl.
    simpl in Hl. lia.
  - intros [->|(s' & c & -> & Hc)]; [done|by apply rstrip_snoc].
Qed.

Lemma rstrip_app_fixed s t : t ≠ [] → rstrip t = t → rstrip (s ++ t) = s ++ t.
Proof.
  intros Hne Ht. apply rstrip_fixed in Ht as [->|(t' & c & -> & Hc)]; [done|].
  rewrite app_assoc. by apply rstrip_snoc.
Qed.

Lemma strip_elem c s : c ∈ strip s → c ∈ s.
Proof. intros H%rstrip_elem. by apply lstrip_elem. Qed.

Lemma strip_keeps c s : isspace c = false → c ∈ s → c ∈ strip s.
Proof. intros Hc Hin. by apply rstrip_keeps, lstrip_keeps. Qed.

Lemma strip_length s : length (strip s) ≤ length s.
Proof. etrans; [apply rstrip_length|apply lstrip_length]. Qed.

(** A string is left alone by [strip] exactly when neither end is
    whitespace. *)
Lemma strip_fixed s : strip s = s ↔ lstrip s = s ∧ rstrip s = s.
Proof.
  split; [|by intros [H1 H2]; unfold strip; rewrite H1].
  intros H. assert (lstrip s = s) as Hl.
  { destruct (lstrip_suffix s) as [w [Hs _]].
    pose proof (rstrip_length (lstrip s)) as Hlen. fold (strip s) in Hlen.
    rewrite H in Hlen. rewrite Hs in Hlen at 1. rewrite length_app in Hlen.
    destruct w; [done|]. simpl in Hlen. lia. }
  split; [done|]. unfold strip in H. by rewrite Hl in H.
Qed.

Lemma lstrip_app_nonspace s c t :
  isspace c = false → lstrip (s ++ c :: t) = lstrip s ++ c :: t.
Proof.
  intros Hc. induction s as [|d s IH]; simpl; [by rewrite Hc|].
  by destruct (isspace d).
Qed.

Lemma rstrip_app_nonspace s c t :
  isspace c = false → rstrip (s ++ c :: t) = s ++ c :: rstrip t.
Proof.
  intros Hc. unfold rstrip. rewrite reverse_app, reverse_cons.
  rewrite <- app_assoc. simpl. rewrite lstrip_app_nonspace by done.
  rewrite reverse_app, reverse_cons, reverse_involutive.
  by rewrite <- app_assoc.
Qed.

Lemma strip_app_nonspace s c t :
  isspace c = false → strip (s ++ c :: t) = lstrip s ++ c :: rstrip t.
Proof.
  intros Hc. unfold strip.
  by rewrite lstrip_app_nonspace, rstrip_app_nonspace.
Qed.

Lemma lstrip_spaces w : forallb isspace w = true → lstrip w = [].
Proof.
  induction w as [|c w IH]; [done|]. simpl.
  intros [Hc Hw]%andb_true_iff. rewrite Hc. by apply IH.
Qed.

Lemma forallb_reverse (f : N → bool) s :
  forallb f (reverse s) = forallb f s.
Proof.
  induction s as [|c s IH]; [done|].
  rewrite reverse_cons, forallb_app, IH. simpl. by rewrite andb_true_r, andb_comm.
Qed.

Lemma rstrip_spaces w : forallb isspace w = true → rstrip w = [].
Proof.
  intros Hw. unfold rstrip. rewrite lstrip_spaces; [done|].
  by rewrite forallb_reverse.
Qed.

Lemma rstrip_prefix s : ∃ w, s = rstrip s ++ w ∧ forallb isspace w = true.
Proof.
  destruct (lstrip_suffix (reverse s)) as [w [Hs Hw]].
  exists (reverse w). split; [|by rewrite forallb_reverse].
  unfold rstrip. rewrite <- reverse_app, <- Hs. by rewrite reverse_involutive.
Qed.

(** A string is whitespace only, or has a first character that is not. *)
Lemma spaces_or_not s :
  forallb isspace s = true ∨
  ∃ a c b, s = a ++ c :: b ∧ isspace c = false.
Proof.
  induction s as [|d s [IH|(a & c & b & -> & Hc)]]; [by left|..].
  - destruct (isspace d) eqn:Hd.
    + left. simpl. by rewrite Hd.
    + right. by exists [], d, s.
  - right. by exists (d :: a), c, b.
Qed.

Lemma lstrip_rstrip s : lstrip (rstrip s) = rstrip (lstrip s).
Proof.
  destruct (spaces_or_not s) as [Hs|(a & c & b & -> & Hc)].
  - by rewrite (rstrip_spaces s), (lstrip_spaces s).
  - rewrite rstrip_app_nonspace, !lstrip_app_nonspace by done.
    by rewrite rstrip_app_nonspace.
Qed.

Lemma rstrip_idemp s : rstrip (rstrip s) = rstrip s.
Proof.
  unfold rstrip. by rewrite reverse_involutive, lstrip_idemp.
Qed.

Lemma strip_lstrip s : strip (lstrip s) = strip s.
Proof. unfold strip. by rewrite lstrip_idemp. Qed.

Lemma strip_rstrip s : strip (rstrip s) = strip s.
Proof. unfold strip. by rewrite lstrip_rstrip, rstrip_idemp. Qed.

Lemma strip_idemp s : strip (strip s) = strip s.
Proof. unfold strip at 2. by rewrite strip_rstrip, strip_lstrip. Qed.

(** [strip] removes whitespace only, and only at the two ends. *)
Lemma strip_decompose s :
  ∃ w1 w2, s = w1 ++ strip s ++ w2 ∧
           forallb isspace w1 = true ∧ forallb isspace w2 = true.
Proof.
  destruct (lstrip_suffix s) as [w1 [Hs H1]].
  destruct (rstrip_prefix (lstrip s)) as [w2 [Hs' H2]].
  exists w1, w2. split; [|done]. unfold strip. by rewrite <- Hs'.
Qed.

Lemma rstrip_spaces_app s w :
  forallb isspace w = true → rstrip (s ++ w) = rstrip s.
Proof.
  intros Hw. unfold rstrip. rewrite reverse_app.
  rewrite lstrip_spaces_app; [done|]. by rewrite forallb_reverse.
Qed.

Lemma strip_spaces w : forallb isspace w = true → strip w = [].
Proof. intros Hw. unfold strip. by rewrite lstrip_spaces. Qed.

Lemma strip_pad_left w s : forallb isspace w = true → strip (w ++ s) = strip s.
Proof. intros Hw. unfold strip. by rewrite lstrip_spaces_app. Qed.

Lemma strip_pad_right s w : forallb isspace w = true → strip (s ++ w) = strip s.
Proof.
  intros Hw. unfold strip. by rewrite <- !lstrip_rstrip, rstrip_spaces_app.
Qed.

Lemma spaces_not_elem w c :
  forallb isspace w = true → isspace c = false → c ∉ w.
Proof.
  intros Hw Hc Hin. rewrite forallb_forall in Hw.
  apply list_elem_of_In, Hw in Hin. congruence.
Qed.

Lemma strip_nil : strip [] = [].
Proof. done. Qed.
End strip.

(** ** Searching and splitting *)

Section split.
Implicit Types (s l r : str) (c : char).

Lemma contains_elem c s : contains c s = true ↔ c ∈ s.
Proof.
  unfold contains. rewrite existsb_exists. split.
  - intros (d & Hd%list_elem_of_In & ->%N.eqb_eq). done.
  - intros H. exists c. split; [by apply list_elem_of_In|apply N.eqb_refl].
Qed.

Lemma contains_not_elem c s : contains c s = false ↔ c ∉ s.
Proof. rewrite <- contains_elem. by destruct (contains c s). Qed.

Lemma find_first c l r : c ∉ l → find c (l ++ c :: r) = Some (length l).
Proof.
  induction l as [|d l IH]; simpl; intros Hl.
  - by rewrite N.eqb_refl.
  - apply not_elem_of_cons in Hl as [Hd Hl].
    destruct (N.eqb_spec d c) as [->|_]; [done|]. by rewrite IH.
Qed.

Lemma find_none c s : c ∉ s → find c s = None.
Proof.
  induction s as [|d s IH]; [done|]. simpl.
  intros [Hd Hs]%not_elem_of_cons.
  destruct (N.eqb_spec d c) as [->|_]; [done|]. by rewrite IH.
Qed.

(** Every string that holds [c] splits at its first [c]. *)
Lemma first_occurrence c s : c ∈ s → ∃ l r, s = l ++ c :: r ∧ c ∉ l.
Proof.
  induction s as [|d s IH]; [by intros ?%elem_of_nil|].
  destruct (decide (d = c)) as [->|Hd].
  - intros _. exists [], s. split; [done|apply not_elem_of_nil].
  - intros [?|Hin]%elem_of_cons; [congruence|].
    destruct (IH Hin) as (l & r & -> & Hl). exists (d :: l), r.
    split; [done|]. apply not_elem_of_cons. by split; [congruence|].
Qed.

Lemma first_occurrence_unique c l r l' r' :
  c ∉ l → c ∉ l' → l ++ c :: r = l' ++ c :: r' → l = l' ∧ r = r'.
Proof.
  revert l'. induction l as [|d l IH]; intros [|d' l'] Hl Hl' H;
    simpl in H.
  - by injection H as ->.
  - injection H as <- _. by apply not_elem_of_cons in Hl' as [? _].
  - injection H as -> _. by apply not_elem_of_cons in Hl as [? _].
  - injection H as -> H.
    apply not_elem_of_cons in Hl as [_ Hl].
    apply not_elem_of_cons in Hl' as [_ Hl'].
    by destruct (IH l' Hl Hl' H) as [-> ->].
Qed.

Lemma split1_first c l r : c ∉ l → split1 c (l ++ c :: r) = [l; r].
Proof.
  intros Hl. unfold split1. rewrite find_first by done.
  rewrite take_app_length. do 2 f_equal.
  clear Hl. induction l as [|d l IH]; [done|apply IH].
Qed.

Lemma split1_none c s : c ∉ s → split1 c s = [s].
Proof. intros Hs. unfold split1. by rewrite find_none. Qed.

(** [split(c, 1)] gives two parts exactly when [c] occurs, so the
    unpacking of [load_env_file] cannot raise under its guard. *)
Lemma unpack2_split1 c s :
  c ∈ s → ∃ l r, s = l ++ c :: r ∧ (c ∉ l) ∧ unpack2 (split1 c s) = Ok (l, r).
Proof.
  intros (l & r & -> & Hl)%first_occurrence. exists l, r.
  by rewrite split1_first.
Qed.

Lemma startswith_hash s :
  startswith (lit "#") s = true ↔ ∃ s', s = HASH :: s'.
Proof.
  destruct s as [|d s].
  - split; [done|by intros [? ?]].
  - change (startswith (lit "#") (d :: s)) with ((HASH =? d)%N && true).
    rewrite andb_true_r, N.eqb_eq. split.
    + intros <-. by exists s.
    + by intros [s' [= -> _]].
Qed.
End split.

(** ** The loop of load_env_file *)

Section loader.
Implicit Types (m : gmap str str) (line l r k v : str).

Lemma for_each_app {A S} (body : S → A → result S) xs ys (s : S) :
  for_each body (xs ++ ys) s = (s' ← for_each body xs s; for_each body ys s').
Proof.
  revert s. induction xs as [|x xs IH]; intros s; [done|]. simpl.
  destruct (body s x); [apply IH|done].
Qed.

(** A line that passes the two guards is split at its first ['=']. *)
Lemma load_line_pair m line l r :
  strip line = l ++ EQ :: r → EQ ∉ l →
  startswith (lit "#") (strip line) = false →
  load_line m line = Ok (<[strip l := strip r]> m).
Proof.
  intros Hs Hl Hh. unfold load_line. rewrite Hh. rewrite Hs.
  assert (truthy (l ++ EQ :: r) = true) as -> by by destruct l.
  assert (contains EQ (l ++ EQ :: r) = true) as ->.
  { apply contains_elem, elem_of_app. right. apply elem_of_cons. by left. }
  simpl. by rewrite split1_first.
Qed.

Lemma load_line_blank m line : strip line = [] → load_line m line = Ok m.
Proof. intros H. unfold load_line. by rewrite H. Qed.

Lemma load_line_comment m line :
  startswith (lit "#") (strip line) = true → load_line m line = Ok m.
Proof. intros H. unfold load_line. rewrite H. by rewrite andb_false_r. Qed.

Lemma load_line_no_eq m line : EQ ∉ line → load_line m line = Ok m.
Proof.
  intros H. unfold load_line.
  assert (contains EQ (strip line) = false) as ->.
  { apply contains_not_elem. intros Hin. by apply H, strip_elem. }
  by case_match.
Qed.

(** The loop body never raises: it returns the mapping unchanged or with
    one entry set. *)
Lemma load_line_total m line :
  load_line m line = Ok m ∨
  ∃ l r, strip line = l ++ EQ :: r ∧ (EQ ∉ l) ∧
         startswith (lit "#") (strip line) = false ∧
         load_line m line = Ok (<[strip l := strip r]> m).
Proof.
  destruct (startswith (lit "#") (strip line)) eqn:Hh;
    [left; by apply load_line_comment|].
  destruct (decide (EQ ∈ strip line)) as [Hin|Hin].
  - right. apply first_occurrence in Hin as (l & r & Hlr & Hl).
    exists l, r. split_and!; [done..|]. by apply load_line_pair.
  - left. apply load_line_no_eq. intros H. apply Hin.
    by apply strip_keeps.
Qed.

Lemma for_each_load_line_total ls m : ∃ m', for_each load_line ls m = Ok m'.
Proof.
  revert m. induction ls as [|line ls IH]; intros m; [by exists m|].
  simpl. destruct (load_line_total m line) as [->|(l & r & _ & _ & _ & ->)];
    apply IH.
Qed.
End loader.

(** ** Lines that set a key *)

Section contributes.
Implicit Types (m : gmap str str) (line l r key value : str).

Lemma isspace_EQ : isspace EQ = false.
Proof. done. Qed.

Lemma contributes_functional line key value key' value' :
  contributes line key value → contributes line key' value' →
  key = key' ∧ value = value'.
Proof.
  intros (l & r & Hline & Hl & _ & -> & ->) (l' & r' & Hline' & Hl' & _ & -> & ->).
  rewrite Hline in Hline'.
  by destruct (first_occurrence_unique _ _ _ _ _ Hl Hl' Hline') as [-> ->].
Qed.

Lemma load_line_contributes m line key value :
  contributes line key value → load_line m line = Ok (<[key := value]> m).
Proof.
  intros (l & r & -> & Hl & Hh & -> & ->).
  rewrite <- (strip_lstrip l), <- (strip_rstrip r).
  apply load_line_pair; [|by intros ?%lstrip_elem|done].
  apply strip_app_nonspace, isspace_EQ.
Qed.

Lemma contributes_split line l r key value :
  line = l ++ EQ :: r → EQ ∉ l → contributes line key value →
  key = strip l ∧ value = strip r.
Proof.
  intros Hline Hl (l' & r' & Hline' & Hl' & _ & -> & ->).
  rewrite Hline in Hline'.
  by destruct (first_occurrence_unique _ _ _ _ _ Hl Hl' Hline') as [-> ->].
Qed.

(** What the loop body does with a line: nothing, or one assignment. *)
Lemma load_line_cases m line :
  load_line m line = Ok m ∨
  ∃ key value, contributes line key value ∧
               load_line m line = Ok (<[key := value]> m).
Proof.
  destruct (load_line_total m line) as [?|(l & r & Hs & Hl & Hh & Hload)];
    [by left|right].
  destruct (strip_decompose line) as (w1 & w2 & Hline & H1 & H2).
  exists (strip l), (strip r). split; [|done].
  exists (w1 ++ l), (r ++ w2). split_and!.
  - rewrite Hline at 1. rewrite Hs. by rewrite <- !app_assoc.
  - rewrite not_elem_of_app. split; [|done]. by apply spaces_not_elem.
  - done.
  - by rewrite strip_pad_left.
  - by rewrite strip_pad_right.
Qed.
End contributes.

(** ** The loader, line by line *)

Section load_env_file.
Implicit Types (m : gmap str str) (line key value text : str).

Lemma load_env_file_Some env_file text :
  load_env_file env_file (Some text)
  = (for_each load_line (readlines text) ∅, []).
Proof. done. Qed.

(** Lines that do not set [key] leave its entry alone. *)
Lemma for_each_load_line_other key ls m m' :
  (∀ line value, line ∈ ls → ¬ contributes line key value) →
  for_each load_line ls m = Ok m' → m' !! key = m !! key.
Proof.
  revert m. induction ls as [|line ls IH]; intros m Hls; simpl.
  - by intros [= ->].
  - assert (∀ line' value, line' ∈ ls → ¬ contributes line' key value) as Hls'.
    { intros line' value Hin. apply Hls. by apply elem_of_cons; right. }
    destruct (load_line_cases m line) as [->|(k & v & Hc & ->)]; simpl.
    + by apply IH.
    + intros Hm'. rewrite (IH _ Hls' Hm'). apply lookup_insert_ne.
      intros ->. eapply Hls; [|done]. by apply elem_of_cons; left.
Qed.

Lemma for_each_load_line_skip pre line post m before :
  for_each load_line pre m = Ok before →
  load_line before line = Ok before →
  for_each load_line (pre ++ line :: post) m
  = for_each load_line (pre ++ post) m.
Proof.
  intros Hpre Hline. rewrite !for_each_app, Hpre. simpl. by rewrite Hline.
Qed.
End load_env_file.

(** C2: a line that is non-empty after stripping, does not start with ['#']
    once stripped, and holds an ['='] is split by the loader at its first
    ['='] only: when the loop reaches it, the left part without its
    surrounding whitespace is mapped to the right part without its
    surrounding whitespace, and the right part is all that follows the
    first ['='], later ['='] included (only whitespace at its two ends is
    dropped). *)
Theorem C2_line_split_at_first_eq (env_file text : str)
    (pre : list str) (line : str) (post : list str) :
  readlines text = pre ++ line :: post →
  strip line ≠ [] →
  startswith (lit "#") (strip line) = false →
  EQ ∈ line →
  ∃ l r before,
    line = l ++ EQ :: r ∧ (EQ ∉ l) ∧
    for_each load_line pre ∅ = Ok before ∧
    load_line before line = Ok (<[strip l := strip r]> before) ∧
    (load_env_file env_file (Some text)).1
    = for_each load_line post (<[strip l := strip r]> before) ∧
    ∃ w1 w2, r = w1 ++ strip r ++ w2 ∧
             forallb isspace w1 = true ∧ forallb isspace w2 = true.
Proof.
  intros Hlines _ Hh (l & r & -> & Hl)%first_occurrence.
  destruct (for_each_load_line_total pre ∅) as [before Hpre].
  exists l, r, before.
  assert (load_line before (l ++ EQ :: r)
          = Ok (<[strip l := strip r]> before)) as Hline.
  { apply load_line_contributes. by exists l, r. }
  split_and!; [done..| |apply strip_decompose].
  rewrite load_env_file_Some, Hlines, for_each_app, Hpre. simpl.
  by rewrite Hline.
Qed.

Lemma C2_line_split_at_first_eq_witness :
  ∃ l r before,
    lit "API_URL = http://host/?a=1&b=2
" = l ++ EQ :: r ∧ (EQ ∉ l) ∧
    for_each load_line [lit "# settings
"] ∅ = Ok before ∧
    load_line before (lit "API_URL = http://host/?a=1&b=2
") = Ok (<[strip l := strip r]> before) ∧
    (load_env_file (lit "webapp.env") (Some (lit "# settings
API_URL = http://host/?a=1&b=2
DEBUG_MODE=true"))).1
    = for_each load_line [lit "DEBUG_MODE=true"] (<[strip l := strip r]> before) ∧
    ∃ w1 w2, r = w1 ++ strip r ++ w2 ∧
             forallb isspace w1 = true ∧ forallb isspace w2 = true.
Proof.
  apply (C2_line_split_at_first_eq (lit "webapp.env") (lit "# settings
API_URL = http://host/?a=1&b=2
DEBUG_MODE=true") [lit "# settings
"] (lit "API_URL = http://host/?a=1&b=2
") [lit "DEBUG_MODE=true"]).
  - reflexivity.
  - vm_compute. discriminate.
  - reflexivity.
  - apply contains_elem. reflexivity.
Defined.

(** C3: a line that is empty or whitespace only, or whose stripped form
    begins with ['#'] (whether or not it holds an ['=']), or that holds no
    ['='], adds nothing to the loaded mapping: the loop body returns the
    mapping it was given, the file loads to what its other lines give,
    and loading does not raise. *)
Theorem C3_skipped_lines (env_file text : str)
    (pre : list str) (line : str) (post : list str) :
  readlines text = pre ++ line :: post →
  strip line = [] ∨ startswith (lit "#") (strip line) = true ∨ EQ ∉ line →
  ∃ env_vars before,
    load_env_file env_file (Some text) = (Ok env_vars, []) ∧
    for_each load_line pre ∅ = Ok before ∧
    load_line before line = Ok before ∧
    for_each load_line (pre ++ post) ∅ = Ok env_vars.
Proof.
  intros Hlines Hskip.
  destruct (for_each_load_line_total pre ∅) as [before Hpre].
  destruct (for_each_load_line_total (pre ++ post) ∅) as [env_vars Hrest].
  assert (load_line before line = Ok before) as Hline.
  { destruct Hskip as [?|[?|?]];
      [by apply load_line_blank|by apply load_line_comment
      |by apply load_line_no_eq]. }
  exists env_vars, before. split_and!; [|done..].
  rewrite load_env_file_Some, Hlines.
  by rewrite (for_each_load_line_skip _ _ _ _ _ Hpre Hline), Hrest.
Qed.

Lemma C3_skipped_lines_witness :
  ∃ env_vars before,
    load_env_file (lit "webapp.env") (Some (lit "A=1
  # B=2
C=3")) = (Ok env_vars, []) ∧
    for_each load_line [lit "A=1
"] ∅ = Ok before ∧
    load_line before (lit "  # B=2
") = Ok before ∧
    for_each load_line ([lit "A=1
"] ++ [lit "C=3"]) ∅ = Ok env_vars.
Proof.
  apply (C3_skipped_lines (lit "webapp.env") (lit "A=1
  # B=2
C=3") [lit "A=1
"] (lit "  # B=2
") [lit "C=3"]).
  - reflexivity.
  - right. left. reflexivity.
Defined.

(** C10: when several lines of an existing file set the same key, the
    loaded mapping gives the key the value of the last of them: a line
    that sets [key] to [value] and is followed by no line that sets [key]
    decides the entry of [key].  In particular a line that holds only
    whitespace after its first ['='], such as [KEY=], maps its key to the
    empty string. *)
Theorem C10_last_line_wins (env_file text : str)
    (pre : list str) (line : str) (post : list str) (key value : str) :
  readlines text = pre ++ line :: post →
  contributes line key value →
  (∀ line' value', line' ∈ post → ¬ contributes line' key value') →
  ∃ env_vars,
    load_env_file env_file (Some text) = (Ok env_vars, []) ∧
    env_vars !! key = Some value ∧
    ∀ l w, line = l ++ EQ :: w → EQ ∉ l → forallb isspace w = true →
           key = strip l ∧ env_vars !! strip l = Some [].
Proof.
  intros Hlines Hline Hpost.
  destruct (for_each_load_line_total (readlines text) ∅) as [env_vars Hload].
  exists env_vars. rewrite load_env_file_Some, Hload.
  assert (env_vars !! key = Some value) as Hkey.
  { rewrite Hlines, for_each_app in Hload.
    destruct (for_each_load_line_total pre ∅) as [before Hpre].
    rewrite Hpre in Hload. simpl in Hload.
    rewrite (load_line_contributes _ _ _ _ Hline) in Hload. simpl in Hload.
    rewrite (for_each_load_line_other _ _ _ _ Hpost Hload).
    apply lookup_insert_eq. }
  split_and!; [done..|]. intros l w -> Hl Hw.
  assert (contributes (l ++ EQ :: w) (strip l) []) as Hempty.
  { exists l, w. split_and!; [done..| |done|by rewrite strip_spaces].
    by destruct Hline as (? & ? & _ & _ & ? & _). }
  destruct (contributes_functional _ _ _ _ _ Hline Hempty) as [-> ->].
  done.
Qed.

Lemma C10_last_line_wins_witness :
  ∃ env_vars,
    load_env_file (lit "webapp.env") (Some (lit "KEY=first
KEY=
OTHER=1")) = (Ok env_vars, []) ∧
    env_vars !! lit "KEY" = Some [] ∧
    ∀ l w, lit "KEY=
" = l ++ EQ :: w → EQ ∉ l → forallb isspace w = true →
           lit "KEY" = strip l ∧ env_vars !! strip l = Some [].
Proof.
  apply (C10_last_line_wins (lit "webapp.env") (lit "KEY=first
KEY=
OTHER=1") [lit "KEY=first
"] (lit "KEY=
") [lit "OTHER=1"] (lit "KEY") []).
  - reflexivity.
  - exists (lit "KEY"), [LF]. split_and!; [reflexivity| |reflexivity..].
    rewrite <- contains_not_elem. reflexivity.
  - intros line' value' ->%list_elem_of_singleton Hc.
    assert (EQ ∉ lit "OTHER") as Hl
      by (rewrite <- contains_not_elem; reflexivity).
    destruct (contributes_split _ (lit "OTHER") (lit "1") _ _ eq_refl Hl Hc)
      as [Hkey _].
    vm_compute in Hkey. discriminate.
Defined.

(** C4: when the environment file does not exist the loader returns the
    default mapping, which has exactly the four entries
    [N8N_API_BASE_URL -> http://localhost:5678/api/v1],
    [N8N_API_KEY -> your-api-key-here], [REFRESH_INTERVAL -> 30000] and
    [DEBUG_MODE -> false], and prints one warning; it does not raise, and
    this is its only result. *)
Theorem C4_missing_file_defaults (env_file : str) :
  ∃ env_vars,
    load_env_file env_file None
    = (Ok env_vars,
       [lit "Warning: " ++ env_file ++ lit " not found. Using default values."])
    ∧ env_vars = default_env
    ∧ env_vars !! lit "N8N_API_BASE_URL" = Some (lit "http://localhost:5678/api/v1")
    ∧ env_vars !! lit "N8N_API_KEY" = Some (lit "your-api-key-here")
    ∧ env_vars !! lit "REFRESH_INTERVAL" = Some (lit "30000")
    ∧ env_vars !! lit "DEBUG_MODE" = Some (lit "false")
    ∧ size env_vars = 4
    ∧ ∀ key, key ∉ known_keys → env_vars !! key = None.
Proof.
  exists default_env. split_and!; [reflexivity..| |].
  - by vm_compute.
  - intros key Hkey. unfold default_env. apply not_elem_of_list_to_map_1.
    intros Hin. apply Hkey. by vm_compute in Hin.
Qed.

(** C5: when the environment file is absent, loading then rendering gives
    byte for byte the payload rendered from the hardcoded default mapping,
    which is the payload with the four default values written out.  The
    fallback of the renderer for each of the four keys is the value the
    default mapping gives the key: taking any one of them out of the
    default mapping, so that the renderer falls back for it, or all of
    them, leaves the payload the same. *)
Theorem C5_absent_file_payload (env_file : str) :
  load_then_render env_file None = Ok (config_content default_env)
  ∧ config_content default_env = default_payload
  ∧ Forall (λ key, config_content (delete key default_env) = default_payload)
           known_keys
  ∧ config_content ∅ = default_payload.
Proof.
  split_and!; [reflexivity|by vm_compute| |by vm_compute].
  unfold known_keys. repeat constructor; by vm_compute.
Qed.

(** C6: the file with the three lines [N8N_API_KEY=abc123], [# comment]
    and [REFRESH_INTERVAL=5000] loads and renders to the payload in which
    [N8N_API_KEY] is ['abc123'], [REFRESH_INTERVAL] is ['5000'],
    [N8N_API_BASE_URL] is ['http://localhost:5678/api/v1'] and [DEBUG_MODE]
    is ['false']. *)
Theorem C6_concrete_scenario (env_file : str) :
  load_then_render env_file (Some (lit "N8N_API_KEY=abc123
# comment
REFRESH_INTERVAL=5000"))
  = Ok (lit "// Auto-generated configuration from webapp.env
// This file is generated at server startup

window.ENV = {
    N8N_API_BASE_URL: 'http://localhost:5678/api/v1',
    N8N_API_KEY: 'abc123',
    REFRESH_INTERVAL: '5000',
    DEBUG_MODE: 'false'
};
").
Proof. by vm_compute. Qed.

(** ** Reading a file in canonical form *)

Section canonical_files.
Implicit Types (m : gmap str str) (e : entry) (entries : list entry).

Lemma universal_newlines_id (s : str) : CR ∉ s → universal_newlines s = s.
Proof.
  induction s as [|c s IH]; [done|]. intros [Hc Hs]%not_elem_of_cons.
  simpl. destruct (N.eqb_spec c CR) as [->|_]; [done|]. by rewrite IH.
Qed.

Lemma lines_line (l t : str) :
  LF ∉ l → lines (l ++ LF :: t) = (l ++ [LF]) :: lines t.
Proof.
  induction l as [|c l IH]; [done|]. intros [Hc Hl]%not_elem_of_cons.
  simpl. destruct (N.eqb_spec c LF) as [->|_]; [done|]. by rewrite IH.
Qed.

Lemma lines_last (l : str) : LF ∉ l → l ≠ [] → lines l = [l].
Proof.
  induction l as [|c l IH]; [done|]. intros [Hc Hl]%not_elem_of_cons _.
  simpl. destruct (N.eqb_spec c LF) as [->|_]; [done|].
  destruct l as [|d l]; [done|]. by rewrite IH.
Qed.

Lemma startswith_hash_app (k t : str) :
  startswith (lit "#") k = false →
  startswith (lit "#") (k ++ EQ :: t) = false.
Proof. destruct k as [|c k]; [done|]. intros H. exact H. Qed.

(** The line of a canonical entry, with or without its line break,
    does to the mapping what the entry says. *)
Lemma load_entry_line m e (w : str) :
  canonical e → forallb isspace w = true →
  load_line m (entry_line e ++ w) = Ok (apply_entry m e).
Proof.
  intros Hwf Hw. destruct e as [|text|key value]; simpl.
  - apply load_line_blank. by apply strip_spaces.
  - apply load_line_comment.
    change (HASH :: text ++ w) with ([] ++ HASH :: (text ++ w)).
    by rewrite strip_app_nonspace.
  - destruct Hwf as (_ & _ & Heq & Hh & Hk & Hv).
    apply load_line_contributes. exists key, (value ++ w).
    split_and!; [by rewrite <- app_assoc|done| |done|].
    + rewrite <- app_assoc. simpl.
      rewrite strip_app_nonspace by apply isspace_EQ.
      apply strip_fixed in Hk as [-> _]. by apply startswith_hash_app.
    + by rewrite strip_pad_right.
Qed.

Lemma entry_line_no_LF e : canonical e → LF ∉ entry_line e.
Proof.
  destruct e as [|text|key value]; simpl.
  - intros _. apply not_elem_of_nil.
  - intros [H _]. apply not_elem_of_cons. by split.
  - intros ([H1 _] & [H2 _] & _). rewrite not_elem_of_app, not_elem_of_cons.
    by split_and!.
Qed.

Lemma entry_line_no_CR e : canonical e → CR ∉ entry_line e.
Proof.
  destruct e as [|text|key value]; simpl.
  - intros _. apply not_elem_of_nil.
  - intros [_ H]. apply not_elem_of_cons. by split.
  - intros ([_ H1] & [_ H2] & _). rewrite not_elem_of_app, not_elem_of_cons.
    by split_and!.
Qed.

Lemma env_text_no_CR entries : Forall canonical entries → CR ∉ env_text entries.
Proof.
  unfold env_text. induction 1 as [|e entries He _ IH]; [apply not_elem_of_nil|].
  rewrite fmap_cons. destruct entries as [|e' entries].
  - by apply entry_line_no_CR.
  - change (unlines (entry_line e :: (entry_line <$> e' :: entries)))
      with (entry_line e ++ LF :: unlines (entry_line <$> e' :: entries)).
    rewrite not_elem_of_app, not_elem_of_cons.
    split_and!; [by apply entry_line_no_CR|done|done].
Qed.

Lemma for_each_env_text entries m :
  Forall canonical entries →
  for_each load_line (lines (env_text entries)) m
  = Ok (foldl apply_entry m entries).
Proof.
  unfold env_text. intros Hwf. revert m.
  induction Hwf as [|e entries He _ IH]; intros m; [done|].
  rewrite fmap_cons. destruct entries as [|e' entries].
  - simpl. destruct (decide (entry_line e = [])) as [Hnil|Hne].
    + rewrite Hnil. simpl. destruct e; simplify_eq/=; [done|].
      by destruct key.
    + rewrite lines_last by (done || by apply entry_line_no_LF). simpl.
      rewrite <- (app_nil_r (entry_line e)).
      by rewrite load_entry_line.
  - change (unlines (entry_line e :: (entry_line <$> e' :: entries)))
      with (entry_line e ++ LF :: unlines (entry_line <$> e' :: entries)).
    rewrite lines_line by by apply entry_line_no_LF.
    simpl. rewrite load_entry_line by done. simpl. apply IH.
Qed.

Lemma foldl_apply_entry_lookup entries m (key : str) :
  foldl apply_entry m entries !! key
  = match file_value key entries with
    | Some v => Some v
    | None => m !! key
    end.
Proof.
  revert m. induction entries as [|e entries IH]; intros m; [done|].
  simpl. rewrite IH. destruct (file_value key entries); [done|].
  destruct e as [| |k v]; simpl; [done..|].
  case_decide as Hk; [subst; apply lookup_insert_eq|by apply lookup_insert_ne].
Qed.

(** A canonical file loads, without raising or printing, to the
    mapping that gives each key the value of its last line. *)
Lemma load_env_text env_file entries :
  Forall canonical entries →
  ∃ m, load_env_file env_file (Some (env_text entries)) = (Ok m, [])
       ∧ ∀ key, m !! key = file_value key entries.
Proof.
  intros Hwf. exists (foldl apply_entry ∅ entries).
  rewrite load_env_file_Some. unfold readlines.
  rewrite universal_newlines_id by by apply env_text_no_CR.
  rewrite for_each_env_text by done. split; [done|]. intros key.
  rewrite foldl_apply_entry_lookup. by destruct (file_value key entries).
Qed.
End canonical_files.

(** ** The payload *)

Section payload.
Implicit Types (m : gmap str str) (key value s t : str).

Lemma config_content_payload_with m :
  config_content m
  = payload_with
      (get m (lit "N8N_API_BASE_URL") (lit "http://localhost:5678/api/v1"))
      (get m (lit "N8N_API_KEY") (lit "your-api-key-here"))
      (get m (lit "REFRESH_INTERVAL") (lit "30000"))
      (get m (lit "DEBUG_MODE") (lit "false")).
Proof. reflexivity. Qed.

(** The payload reads the mapping at the four known keys only. *)
Lemma config_content_ext m m' :
  (∀ key, key ∈ known_keys → m !! key = m' !! key) →
  config_content m = config_content m'.
Proof.
  intros H. unfold config_content, get.
  rewrite !H; [done|unfold known_keys; rewrite !elem_of_cons; auto 10..].
Qed.

Lemma config_content_insert_other m key value :
  key ∉ known_keys → config_content (<[key := value]> m) = config_content m.
Proof.
  intros Hkey. apply config_content_ext. intros k Hk.
  apply lookup_insert_ne. by intros ->.
Qed.

Lemma occurs_in_skip a s t : occurs_in s t → occurs_in s (a ++ t).
Proof.
  intros (a' & b & ->). exists (a ++ a'), b. by rewrite <- app_assoc.
Qed.

Lemma config_line_here (p key value b : str) :
  occurs_in (config_line key value)
    (p ++ lit "    " ++ key ++ lit ": '" ++ value ++ lit "'" ++ b).
Proof.
  exists p, b. unfold config_line.
  generalize (lit "    ") (lit ": '") (lit "'"). intros l1 l2 l3.
  by rewrite <- !app_assoc.
Qed.

(** Each of the four values is in the payload, single-quoted, after its
    key. *)
Lemma payload_with_shows v1 v2 v3 v4 :
  occurs_in (config_line (lit "N8N_API_BASE_URL") v1) (payload_with v1 v2 v3 v4)
  ∧ occurs_in (config_line (lit "N8N_API_KEY") v2) (payload_with v1 v2 v3 v4)
  ∧ occurs_in (config_line (lit "REFRESH_INTERVAL") v3) (payload_with v1 v2 v3 v4)
  ∧ occurs_in (config_line (lit "DEBUG_MODE") v4) (payload_with v1 v2 v3 v4).
Proof.
  unfold payload_with. repeat split.
  - simpl. apply (config_line_here (lit "// Auto-generated configuration from webapp.env
// This file is generated at server startup

window.ENV = {
") (lit "N8N_API_BASE_URL") v1).
  - do 2 apply occurs_in_skip. simpl.
    apply (config_line_here (lit "',
") (lit "N8N_API_KEY") v2).
  - do 4 apply occurs_in_skip. simpl.
    apply (config_line_here (lit "',
") (lit "REFRESH_INTERVAL") v3).
  - do 6 apply occurs_in_skip. simpl.
    apply (config_line_here (lit "',
") (lit "DEBUG_MODE") v4).
Qed.

Lemma get_Some m key value fallback :
  m !! key = Some value → get m key fallback = value.
Proof. intros H. unfold get. by rewrite H. Qed.

(** A known key that the mapping holds is shown with its value. *)
Lemma config_content_shows m key value :
  key ∈ known_keys → m !! key = Some value →
  occurs_in (config_line key value) (config_content m).
Proof.
  intros Hkey Hm. rewrite config_content_payload_with.
  pose proof (payload_with_shows
    (get m (lit "N8N_API_BASE_URL") (lit "http://localhost:5678/api/v1"))
    (get m (lit "N8N_API_KEY") (lit "your-api-key-here"))
    (get m (lit "REFRESH_INTERVAL") (lit "30000"))
    (get m (lit "DEBUG_MODE") (lit "false"))) as (H1 & H2 & H3 & H4).
  unfold known_keys in Hkey. rewrite !elem_of_cons, elem_of_nil in Hkey.
  destruct Hkey as [->|[->|[->|[->|[]]]]].
  - by rewrite (get_Some _ _ _ _ Hm) in H1 at 1.
  - by rewrite (get_Some _ _ _ _ Hm) in H2 at 1.
  - by rewrite (get_Some _ _ _ _ Hm) in H3 at 1.
  - by rewrite (get_Some _ _ _ _ Hm) in H4 at 1.
Qed.
End payload.

(** ** Encoding the payload *)

Section decoded.
Implicit Types (m : gmap str str) (s t line : str) (c : char).

Lemma utf8_char_scalar c : scalar c = true → ∃ b, utf8_char c = Ok b.
Proof.
  unfold scalar, utf8_char. intros Hc.
  destruct (N.ltb_spec c 0x80); [by eexists|].
  destruct (N.ltb_spec c 0x800); [by eexists|].
  destruct (N.ltb_spec c 0x10000).
  - destruct (N.leb_spec 0xD800 c); simpl.
    + destruct (N.leb_spec c 0xDFFF); [|by eexists].
      destruct (N.ltb_spec c 0xD800); [lia|].
      destruct (N.ltb_spec 0xDFFF c); [lia|done].
    + by eexists.
  - destruct (N.ltb_spec c 0x110000); [by eexists|].
    destruct (N.ltb_spec c 0xD800); [lia|].
    by rewrite andb_false_r in Hc.
Qed.

Lemma encode_decoded s : decoded s → ∃ b, encode s = Ok b.
Proof.
  induction 1 as [|c s Hc _ [bs IH]]; [by eexists|]. simpl.
  destruct (utf8_char_scalar c Hc) as [b ->]. rewrite IH. by eexists.
Qed.

Lemma decoded_lit (x : string) : decoded (lit x).
Proof.
  unfold decoded, lit. apply Forall_fmap, Forall_forall. intros a _. simpl.
  pose proof (N_ascii_bounded a) as Ha. unfold scalar.
  destruct (N.ltb_spec (N_of_ascii a) 0xD800); [done|lia].
Qed.

Lemma decoded_subset s t : (∀ c, c ∈ s → c ∈ t) → decoded t → decoded s.
Proof.
  unfold decoded. rewrite !Forall_forall. intros Hst Ht c Hc.
  by apply Ht, Hst.
Qed.

Lemma universal_newlines_elem s :
  (∀ c, c ∈ universal_newlines s → c ∈ s ∨ c = LF)
  ∧ ∀ d c, c ∈ universal_newlines (d :: s) → c ∈ d :: s ∨ c = LF.
Proof.
  induction s as [|e s [IH1 IH2]].
  - split; [by left|]. intros d c. simpl.
    destruct (N.eqb_spec d CR) as [->|_].
    + intros ->%list_elem_of_singleton. by right.
    + by left.
  - split; [apply IH2|]. intros d c.
    change (universal_newlines (d :: e :: s))
      with (if (d =? CR)%N
            then if (e =? LF)%N then LF :: universal_newlines s
                 else LF :: universal_newlines (e :: s)
            else d :: universal_newlines (e :: s)).
    destruct (d =? CR)%N; [destruct (e =? LF)%N|];
      intros [->|Hc]%elem_of_cons; try (by right); try (by left; left).
    + destruct (IH1 c Hc); [left|by right]. by do 2 right.
    + destruct (IH2 e c Hc); [left|by right]. by right.
    + destruct (IH2 e c Hc); [left|by right]. by right.
Qed.

Lemma lines_elem s l c : l ∈ lines s → c ∈ l → c ∈ s.
Proof.
  revert l. induction s as [|d s IH]; intros l; [by intros ?%elem_of_nil|].
  simpl. destruct (d =? LF)%N.
  - intros [->|Hl]%elem_of_cons Hc.
    + apply list_elem_of_singleton in Hc as ->. by left.
    + right. by eapply IH.
  - destruct (lines s) as [|l' ls] eqn:Hs.
    + intros ->%list_elem_of_singleton ->%list_elem_of_singleton. by left.
    + intros [->|Hl]%elem_of_cons Hc.
      * apply elem_of_cons in Hc as [->|Hc]; [by left|right].
        apply (IH l'); [by left|done].
      * right. apply (IH l); [by right|done].
Qed.

Lemma readlines_decoded text :
  decoded text → Forall decoded (readlines text).
Proof.
  intros Ht. apply Forall_forall. intros l Hl.
  unfold decoded. apply Forall_forall. intros c Hc.
  pose proof (lines_elem _ _ _ Hl Hc) as Hu.
  apply (proj1 (universal_newlines_elem text)) in Hu as [Hu| ->]; [|done].
  unfold decoded in Ht. rewrite Forall_forall in Ht. by apply Ht.
Qed.

Lemma load_line_decoded m m' line :
  decoded line → map_Forall (λ _ v, decoded v) m →
  load_line m line = Ok m' → map_Forall (λ _ v, decoded v) m'.
Proof.
  intros Hline Hm.
  destruct (load_line_total m line) as [->|(l & r & Hs & _ & _ & ->)];
    intros [= <-]; [done|].
  apply map_Forall_insert_2; [|done].
  apply (decoded_subset _ line); [|done]. intros c Hc%strip_elem.
  apply strip_elem. rewrite Hs. apply elem_of_app. right. by right.
Qed.

Lemma for_each_load_line_decoded ls m m' :
  Forall decoded ls → map_Forall (λ _ v, decoded v) m →
  for_each load_line ls m = Ok m' → map_Forall (λ _ v, decoded v) m'.
Proof.
  intros Hls. revert m. induction Hls as [|line ls Hline _ IH]; intros m Hm.
  - by intros [= <-].
  - simpl. destruct (load_line m line) as [m1|] eqn:H1; [|done]. simpl.
    apply IH. by eapply load_line_decoded.
Qed.

Lemma default_env_decoded : map_Forall (λ _ v, decoded v) default_env.
Proof.
  unfold default_env. simpl.
  repeat (apply map_Forall_insert_2; [apply decoded_lit|]).
  apply map_Forall_empty.
Qed.

(** Loading never raises, and the values it returns are made of the
    code points of the file. *)
Lemma load_env_file_decoded env_file contents :
  match contents with Some text => decoded text | None => True end →
  ∃ m, (load_env_file env_file contents).1 = Ok m
       ∧ map_Forall (λ _ v, decoded v) m.
Proof.
  destruct contents as [text|]; simpl; intros Ht.
  - destruct (for_each_load_line_total (readlines text) ∅) as [m Hm].
    exists m. split; [done|].
    eapply for_each_load_line_decoded;
      [by apply readlines_decoded|apply map_Forall_empty|done].
  - exists default_env. split; [done|apply default_env_decoded].
Qed.

Lemma get_decoded m key fallback :
  map_Forall (λ _ v, decoded v) m → decoded fallback →
  decoded (get m key fallback).
Proof.
  intros Hm Hf. unfold get. destruct (m !! key) eqn:Hk; [|done].
  by apply (Hm key).
Qed.

Lemma config_content_decoded m :
  map_Forall (λ _ v, decoded v) m → decoded (config_content m).
Proof.
  intros Hm. unfold config_content, decoded.
  repeat (apply Forall_app; split);
    try apply decoded_lit; apply get_decoded; try done; apply decoded_lit.
Qed.
End decoded.

(** ** The request handler *)

Section handler.
Implicit Types (w : world) (path : str) (r : response).

(** The response to [/config.js], when the file loads to [env_vars] and
    the payload encodes to [payload]. *)
Lemma do_GET_config_js w env_vars payload :
  (load_env_file (env_file w) (webapp_env w)).1 = Ok env_vars →
  encode (config_content env_vars) = Ok payload →
  (do_GET w (lit "/config.js")).1
  = Ok (Response (Some 200%N)
          [(lit "Content-type", HStr (lit "application/javascript"));
           (lit "Content-Length", HInt (length payload));
           (lit "Access-Control-Allow-Origin", HStr (lit "*"));
           (lit "Access-Control-Allow-Methods", HStr (lit "GET, POST, OPTIONS"));
           (lit "Access-Control-Allow-Headers", HStr (lit "Content-Type"))]
          true payload).
Proof.
  intros Hload Henc. unfold do_GET.
  rewrite bool_decide_eq_true_2 by done.
  destruct (load_env_file (env_file w) (webapp_env w)) as [loaded printed].
  simpl in Hload. subst loaded. cbn [fst mbind result_bind].
  rewrite Henc. reflexivity.
Qed.



Lemma serve_forever_responses (requests : list (world * str)) :
  (serve_forever requests).1
  = (λ req, (do_GET req.1 req.2).1) <$> requests.
Proof.
  induction requests as [|[w path] requests IH]; [done|]. simpl.
  destruct (do_GET w path) as [r printed].
  destruct (serve_forever requests) as [rs printed']. simpl in *.
  by rewrite IH.
Qed.
End handler.





(** An edit of the file between two requests shows in the second
    response. *)
Example reload_after_edit :
  ∃ r1 r2,
    (serve_forever
       [(World (lit "webapp.env") (Some (lit "DEBUG_MODE=false")) (λ _, None) [],
         lit "/config.js");
        (World (lit "webapp.env") (Some (lit "DEBUG_MODE=true")) (λ _, None) [],
         lit "/config.js")]).1 = [Ok r1; Ok r2]
    ∧ encode (payload_with (lit "http://localhost:5678/api/v1")
                (lit "your-api-key-here") (lit "30000") (lit "false"))
      = Ok (body r1)
    ∧ encode (payload_with (lit "http://localhost:5678/api/v1")
                (lit "your-api-key-here") (lit "30000") (lit "true"))
      = Ok (body r2)
    ∧ body r1 ≠ body r2.
Proof.
  eexists _, _. split_and!; [by vm_compute|by vm_compute|by vm_compute|].
  vm_compute. discriminate.
Qed.

(** * Further properties of the code *)

(** ** What a loaded mapping holds *)

Section loaded_mapping.
Implicit Types (m : gmap str str) (line key value l r s text : str).

Lemma contributes_dec line :
  (∃ key value, contributes line key value)
  ∨ (∀ key value, ¬ contributes line key value).
Proof.
  destruct (startswith (lit "#") (strip line)) eqn:Hh.
  - right. intros key value (l & r & _ & _ & Hh' & _). congruence.
  - destruct (decide (EQ ∈ line)) as [Hin|Hin].
    + left. apply first_occurrence in Hin as (l & r & Hline & Hl).
      exists (strip l), (strip r), l, r. done.
    + right. intros key value (l & r & -> & _). apply Hin.
      apply elem_of_app. right. by left.
Qed.

(** A key is in the mapping after the loop exactly when it was there
    before or some line sets it. *)
Lemma for_each_load_line_dom ls m m' key :
  for_each load_line ls m = Ok m' →
  is_Some (m' !! key)
  ↔ is_Some (m !! key) ∨ ∃ line value, line ∈ ls ∧ contributes line key value.
Proof.
  revert m. induction ls as [|line ls IH]; intros m; simpl.
  - intros [= <-]. split; [by left|]. intros [?|(? & ? & []%elem_of_nil & _)].
    done.
  - destruct (load_line_cases m line) as [Hline|(k & v & Hc & Hline)];
      rewrite Hline; simpl; intros Hm'; rewrite (IH _ Hm'); clear IH Hm'.
    + split.
      * intros [?|(line' & value & Hin & Hc)]; [by left|right].
        exists line', value. split; [by right|done].
      * intros [?|(line' & value & [->|Hin]%elem_of_cons & Hc)]; [by left| |].
        -- left. rewrite (load_line_contributes _ _ _ _ Hc) in Hline.
           injection Hline as Hline. rewrite <- Hline.
           rewrite lookup_insert_eq. by eexists.
        -- right. by exists line', value.
    + split.
      * intros [Hk|(line' & value & Hin & Hc')].
        -- destruct (decide (k = key)) as [->|Hne].
           ++ right. exists line, v. split; [by left|done].
           ++ left. by rewrite lookup_insert_ne in Hk.
        -- right. exists line', value. split; [by right|done].
      * intros [Hk|(line' & value & [->|Hin]%elem_of_cons & Hc')].
        -- left. destruct (decide (k = key)) as [->|Hne].
           ++ rewrite lookup_insert_eq. by eexists.
           ++ by rewrite lookup_insert_ne.
        -- left. destruct (contributes_functional _ _ _ _ _ Hc Hc') as [-> _].
           rewrite lookup_insert_eq. by eexists.
        -- right. by exists line', value.
Qed.

Lemma universal_newlines_no_CR s :
  (CR ∉ universal_newlines s) ∧ ∀ d, CR ∉ universal_newlines (d :: s).
Proof.
  induction s as [|e s [IH1 IH2]].
  - split; [apply not_elem_of_nil|]. intros d.
    change (universal_newlines [d]) with (if (d =? CR)%N then [LF] else [d]).
    destruct (N.eqb_spec d CR) as [->|Hd].
    + by intros ?%list_elem_of_singleton.
    + intros ?%list_elem_of_singleton. done.
  - split; [apply IH2|]. intros d.
    change (universal_newlines (d :: e :: s))
      with (if (d =? CR)%N
            then if (e =? LF)%N then LF :: universal_newlines s
                 else LF :: universal_newlines (e :: s)
            else d :: universal_newlines (e :: s)).
    destruct (N.eqb_spec d CR) as [->|Hd]; [destruct (e =? LF)%N|];
      apply not_elem_of_cons; split; try done; apply IH2.
Qed.

(** A line of a file holds a line break at its end only. *)
Lemma lines_shape s l :
  l ∈ lines s → ∃ body, (LF ∉ body) ∧ (l = body ∨ l = body ++ [LF]).
Proof.
  revert l. induction s as [|d s IH]; intros l; [by intros ?%elem_of_nil|].
  simpl. destruct (N.eqb_spec d LF) as [Hd|Hd].
  - intros [->|Hl]%elem_of_cons; [|by apply IH].
    exists []. split; [apply not_elem_of_nil|right; by rewrite Hd].
  - destruct (lines s) as [|l' ls] eqn:Hs.
    + intros ->%list_elem_of_singleton. exists [d]. split; [|by left].
      intros ?%list_elem_of_singleton. congruence.
    + intros [->|Hl]%elem_of_cons.
      * destruct (IH l') as (body & Hbody & Hl'); [by left|].
        exists (d :: body). split.
        -- apply not_elem_of_cons. split; [congruence|done].
        -- destruct Hl' as [->| ->]; [by left|by right].
      * apply IH. by right.
Qed.

Lemma readlines_strip_one_line text line :
  line ∈ readlines text → one_line (strip line).
Proof.
  intros Hline. split.
  - destruct (lines_shape _ _ Hline) as (body & Hbody & [->| ->]).
    + by intros ?%strip_elem.
    + rewrite strip_pad_right by done. by intros ?%strip_elem.
  - intros Hc%strip_elem.
    apply (proj1 (universal_newlines_no_CR text)).
    by eapply lines_elem.
Qed.

(** The key of a line is empty or starts as the stripped line does. *)
Lemma startswith_hash_key l r :
  strip (l ++ EQ :: r) = l ++ EQ :: r →
  startswith (lit "#") (l ++ EQ :: r) = false →
  startswith (lit "#") (strip l) = false.
Proof.
  intros Hs Hh. destruct l as [|c l]; [done|].
  apply strip_fixed in Hs as [Hs _].
  apply lstrip_fixed in Hs as [?|(c' & s' & [= <- _] & Hc)]; [done|].
  unfold strip. rewrite lstrip_head by done.
  change (c :: l) with ([] ++ c :: l). rewrite rstrip_app_nonspace by done.
  exact Hh.
Qed.

Lemma load_line_clean m m' line :
  one_line (strip line) → map_Forall clean_entry m →
  load_line m line = Ok m' → map_Forall clean_entry m'.
Proof.
  intros [HLF HCR] Hm.
  destruct (load_line_total m line) as [->|(l & r & Hs & Hl & Hh & ->)];
    intros [= <-]; [done|].
  apply map_Forall_insert_2; [|done].
  assert (∀ c, c ∈ l → c ∈ strip line) as Hsubl.
  { intros c Hc. rewrite Hs. apply elem_of_app. by left. }
  assert (∀ c, c ∈ r → c ∈ strip line) as Hsubr.
  { intros c Hc. rewrite Hs. apply elem_of_app. right. by right. }
  split_and!.
  - apply strip_idemp.
  - apply strip_idemp.
  - by intros ?%strip_elem.
  - rewrite Hs in Hh. apply (startswith_hash_key l r); [|done].
    rewrite <- Hs. apply strip_idemp.
  - split; intros Hc%strip_elem%Hsubl; done.
  - split; intros Hc%strip_elem%Hsubr; done.
Qed.

Lemma for_each_load_line_clean ls m m' :
  Forall (λ line, one_line (strip line)) ls → map_Forall clean_entry m →
  for_each load_line ls m = Ok m' → map_Forall clean_entry m'.
Proof.
  intros Hls. revert m. induction Hls as [|line ls Hline _ IH]; intros m Hm.
  - by intros [= <-].
  - simpl. destruct (load_line m line) as [m1|] eqn:H1; [|done]. simpl.
    apply IH. by eapply load_line_clean.
Qed.
End loaded_mapping.

Lemma readlines_clean text m :
  for_each load_line (readlines text) ∅ = Ok m → map_Forall clean_entry m.
Proof.
  apply for_each_load_line_clean; [|apply map_Forall_empty].
  apply Forall_forall. intros line Hline. by eapply readlines_strip_one_line.
Qed.

(** X1: whatever the text of the file, every entry of the mapping that
    [load_env_file] returns has a key and a value without whitespace
    around them and without a line break in them, and its key holds no
    ['='] and does not start with ['#']. *)
Theorem X1_loaded_entries_clean (env_file text : str) :
  ∃ env_vars,
    load_env_file env_file (Some text) = (Ok env_vars, []) ∧
    map_Forall clean_entry env_vars.
Proof.
  destruct (for_each_load_line_total (readlines text) ∅) as [m Hm].
  exists m. rewrite load_env_file_Some, Hm. split; [done|].
  by apply (readlines_clean text).
Qed.

Section loaded_values.
Implicit Types (m : gmap str str) (line key value : str) (ls : list str).

(** Where an entry of the mapping after the loop comes from: it was there
    before and no line sets its key, or it comes from the last line that
    sets its key. *)
Lemma for_each_load_line_lookup ls m m' key value :
  for_each load_line ls m = Ok m' → m' !! key = Some value →
  (m !! key = Some value
   ∧ ∀ line v, line ∈ ls → ¬ contributes line key v)
  ∨ ∃ pre line post,
      ls = pre ++ line :: post ∧ contributes line key value ∧
      ∀ line' v, line' ∈ post → ¬ contributes line' key v.
Proof.
  revert m. induction ls as [|line ls IH]; intros m; simpl.
  - intros [= <-] Hm. left. split; [done|]. by intros ? ? ?%elem_of_nil.
  - destruct (contributes_dec line) as [(k & v & Hc)|Hnone].
    + rewrite (load_line_contributes _ _ _ _ Hc). simpl. intros Hm' Hkey.
      destruct (IH _ Hm' Hkey) as [[Hm Hls]|(pre & l & post & -> & Hl & Hpost)].
      * destruct (decide (k = key)) as [->|Hne].
        -- rewrite lookup_insert_eq in Hm. injection Hm as ->.
           right. by exists [], line, ls.
        -- rewrite lookup_insert_ne in Hm by done. left. split; [done|].
           intros line' v' [->|Hin]%elem_of_cons Hc'; [|by eapply Hls].
           by destruct (contributes_functional _ _ _ _ _ Hc Hc').
      * right. by exists (line :: pre), l, post.
    + destruct (load_line_cases m line) as [->|(k & v & Hc & _)];
        [|by destruct (Hnone k v)].
      simpl. intros Hm' Hkey.
      destruct (IH _ Hm' Hkey) as [[Hm Hls]|(pre & l & post & -> & Hl & Hpost)].
      * left. split; [done|].
        intros line' v' [->|Hin]%elem_of_cons Hc'; [|by eapply Hls].
        by destruct (Hnone key v').
      * right. by exists (line :: pre), l, post.
Qed.
End loaded_values.

(** X2: for a file that exists, the returned mapping is exactly what the
    lines of the file set: it holds a key when some line sets it and
    otherwise not (the defaults of the missing-file case are not mixed
    in), and the value of a key is what the last line that sets the key
    gives it. *)
Theorem X2_loaded_mapping_is_last_values (env_file text key : str) :
  ∃ env_vars,
    load_env_file env_file (Some text) = (Ok env_vars, []) ∧
    (env_vars !! key = None
     ↔ ∀ line value, line ∈ readlines text → ¬ contributes line key value) ∧
    ∀ value,
      env_vars !! key = Some value
      ↔ ∃ pre line post,
          readlines text = pre ++ line :: post ∧
          contributes line key value ∧
          ∀ line' value', line' ∈ post → ¬ contributes line' key value'.
Proof.
  destruct (for_each_load_line_total (readlines text) ∅) as [m Hm].
  exists m. rewrite load_env_file_Some, Hm. split_and!; [done| |].
  - rewrite eq_None_not_Some.
    rewrite (for_each_load_line_dom _ _ _ key Hm), lookup_empty. split.
    + intros Hno line value Hline Hc. apply Hno. right. by exists line, value.
    + intros Hno [[? [=]]|(line & value & Hline & Hc)]. by eapply Hno.
  - intros value. split.
    + intros Hkey.
      destruct (for_each_load_line_lookup _ _ _ _ _ Hm Hkey)
        as [[[=] _]|?]; done.
    + intros (pre & line & post & Hlines & Hc & Hpost).
      rewrite Hlines, for_each_app in Hm.
      destruct (for_each_load_line_total pre ∅) as [before Hpre].
      rewrite Hpre in Hm. simpl in Hm.
      rewrite (load_line_contributes _ _ _ _ Hc) in Hm. simpl in Hm.
      rewrite (for_each_load_line_other _ _ _ _ Hpost Hm).
      apply lookup_insert_eq.
Qed.

Section default_payload.
Implicit Types (m : gmap str str) (text : str).

Lemma config_content_empty : config_content ∅ = default_payload.
Proof. by vm_compute. Qed.

Lemma config_content_no_known_key m :
  (∀ key, key ∈ known_keys → m !! key = None) →
  config_content m = default_payload.
Proof.
  intros Hm. rewrite <- config_content_empty. apply config_content_ext.
  intros key Hkey. by rewrite Hm, lookup_empty.
Qed.
End default_payload.

(** X3: an existing file in which no line sets one of the four known keys
    (an empty file, a file of comments, a file of other keys) renders the
    same payload as a missing file: the payload with the four defaults. *)
Theorem X3_no_known_key_default_payload (env_file text : str) :
  (∀ line key value,
     line ∈ readlines text → contributes line key value →
     key ∉ known_keys) →
  load_then_render env_file (Some text) = Ok default_payload.
Proof.
  intros Hnone. unfold load_then_render.
  destruct (for_each_load_line_total (readlines text) ∅) as [m Hm].
  rewrite load_env_file_Some. cbn [fst]. rewrite Hm.
  cbn [mbind result_bind]. f_equal.
  apply config_content_no_known_key. intros key Hkey.
  apply eq_None_not_Some.
  rewrite (for_each_load_line_dom _ _ _ key Hm), lookup_empty.
  intros [[? [=]]|(line & value & Hline & Hc)].
  by eapply Hnone.
Qed.

Lemma X3_no_known_key_default_payload_witness :
  load_then_render (lit "webapp.env") (Some (lit "# N8N_API_KEY=abc
n8n_api_key = abc
"))
  = Ok default_payload.
Proof.
  apply (X3_no_known_key_default_payload (lit "webapp.env")).
  intros line key value Hline Hc.
  change (line ∈ [lit "# N8N_API_KEY=abc
"; lit "n8n_api_key = abc
"]) in Hline.
  apply elem_of_cons in Hline as [-> | ->%list_elem_of_singleton].
  - destruct Hc as (l & r & _ & _ & Hh & _). vm_compute in Hh. discriminate.
  - assert (EQ ∉ lit "n8n_api_key ") as Hl
      by (rewrite <- contains_not_elem; reflexivity).
    destruct (contributes_split _ (lit "n8n_api_key ") (lit " abc
") _ _ eq_refl Hl Hc) as [-> _].
    apply (bool_decide_unpack _). vm_compute. exact I.
Defined.

Section normal_form.
Implicit Types (m : gmap str str) (key : str).

Lemma clean_entry_canonical key value :
  clean_entry key value → canonical (Setting key value).
Proof. intros (? & ? & ? & ? & ? & ?). by split_and!. Qed.

Lemma file_value_settings (l : list (str * str)) key :
  NoDup l.*1 →
  file_value key ((λ kv, Setting kv.1 kv.2) <$> l)
  = (list_to_map l : gmap str str) !! key.
Proof.
  induction l as [|[k v] l IH]; [done|]. intros [Hk Hl]%NoDup_cons.
  rewrite fmap_cons, list_to_map_cons. cbn [file_value fst snd].
  rewrite (IH Hl). case_decide as Hkey.
  - subst k. rewrite lookup_insert_eq.
    by rewrite (not_elem_of_list_to_map_1 _ _ Hk).
  - rewrite lookup_insert_ne by done. by destruct (list_to_map l !! key).
Qed.

Lemma file_value_settings_of m key : file_value key (settings_of m) = m !! key.
Proof.
  unfold settings_of. rewrite file_value_settings by apply NoDup_fst_map_to_list.
  by rewrite list_to_map_to_list.
Qed.

Lemma settings_of_canonical m :
  map_Forall clean_entry m → Forall canonical (settings_of m).
Proof.
  intros Hm. unfold settings_of. apply Forall_fmap, Forall_forall.
  intros [k v] Hkv%elem_of_map_to_list. simpl.
  by apply clean_entry_canonical, (Hm k v).
Qed.
End normal_form.

(** X4: what the loader returns for any file can be written back as a
    file in canonical form, one [KEY=VALUE] line for each entry, and loading
    that file returns the same mapping again. *)
Theorem X4_load_normal_form (env_file text : str) :
  ∃ env_vars,
    load_env_file env_file (Some text) = (Ok env_vars, []) ∧
    Forall canonical (settings_of env_vars) ∧
    load_env_file env_file (Some (env_text (settings_of env_vars)))
    = (Ok env_vars, []).
Proof.
  destruct (for_each_load_line_total (readlines text) ∅) as [m Hm].
  pose proof (settings_of_canonical m (readlines_clean text m Hm)) as Hwf.
  exists m. rewrite load_env_file_Some, Hm. split_and!; [done..|].
  destruct (load_env_text env_file _ Hwf) as (m' & Hload & Hm').
  rewrite Hload. do 2 f_equal. apply map_eq. intros key.
  by rewrite Hm', file_value_settings_of.
Qed.

(** ** Line endings *)

Section line_endings.
Implicit Types (m : gmap str str) (s t l : str) (ls : list str).

Lemma universal_newlines_app s t :
  CR ∉ s → universal_newlines (s ++ t) = s ++ universal_newlines t.
Proof.
  induction s as [|c s IH]; [done|]. intros [Hc Hs]%not_elem_of_cons.
  change (universal_newlines ((c :: s) ++ t))
    with (if (c =? CR)%N
          then match s ++ t with
               | d :: s'' =>
                 if (d =? LF)%N then LF :: universal_newlines s''
                 else LF :: universal_newlines (s ++ t)
               | [] => [LF]
               end
          else c :: universal_newlines (s ++ t)).
  destruct (N.eqb_spec c CR) as [?|_]; [done|]. by rewrite IH.
Qed.

Lemma universal_newlines_CRLF t :
  universal_newlines (CR :: LF :: t) = LF :: universal_newlines t.
Proof. done. Qed.

Lemma universal_newlines_CR t :
  (∀ t', t ≠ LF :: t') →
  universal_newlines (CR :: t) = LF :: universal_newlines t.
Proof.
  intros Ht. destruct t as [|d t]; [done|].
  change (universal_newlines (CR :: d :: t))
    with (if (d =? LF)%N then LF :: universal_newlines t
          else LF :: universal_newlines (d :: t)).
  destruct (N.eqb_spec d LF) as [Hd|_]; [|done]. by destruct (Ht t); rewrite Hd.
Qed.

Lemma join_with_cons nl l l' ls :
  join_with nl (l :: l' :: ls) = l ++ nl ++ join_with nl (l' :: ls).
Proof. done. Qed.

Lemma unlines_join_with ls : unlines ls = join_with [LF] ls.
Proof.
  induction ls as [|l [|l' ls] IH]; [done..|].
  rewrite join_with_cons, <- IH. done.
Qed.

Lemma join_with_CR_no_LF ls : Forall one_line ls → LF ∉ join_with [CR] ls.
Proof.
  induction 1 as [|l ls [Hl _] _ IH]; [apply not_elem_of_nil|].
  destruct ls as [|l' ls]; [done|]. rewrite join_with_cons.
  rewrite !not_elem_of_app. split_and!; [done| |done].
  by intros ?%list_elem_of_singleton.
Qed.

Lemma universal_newlines_join_CRLF ls :
  Forall one_line ls →
  universal_newlines (join_with [CR; LF] ls) = join_with [LF] ls.
Proof.
  induction 1 as [|l ls [_ Hl] Hls IH]; [done|].
  destruct ls as [|l' ls]; [by apply universal_newlines_id|].
  rewrite !join_with_cons, universal_newlines_app by done.
  cbn [app]. by rewrite universal_newlines_CRLF, IH.
Qed.

Lemma universal_newlines_join_CR ls :
  Forall one_line ls →
  universal_newlines (join_with [CR] ls) = join_with [LF] ls.
Proof.
  induction 1 as [|l ls [_ Hl] Hls IH]; [done|].
  destruct ls as [|l' ls]; [by apply universal_newlines_id|].
  rewrite !join_with_cons, universal_newlines_app by done.
  cbn [app]. rewrite universal_newlines_CR, IH; [done|].
  intros t' Ht. apply (join_with_CR_no_LF _ Hls). rewrite Ht. by left.
Qed.

Lemma load_line_strip_eq m l l' :
  strip l = strip l' → load_line m l = load_line m l'.
Proof. intros H. unfold load_line. by rewrite H. Qed.

(** The lines of a text with a line break added at its end: one more,
    empty line, or the same lines with the last one now ended. *)
Lemma lines_snoc_LF s :
  lines (s ++ [LF]) = lines s ++ [[LF]]
  ∨ ∃ pre l, lines s = pre ++ [l] ∧ lines (s ++ [LF]) = pre ++ [l ++ [LF]].
Proof.
  induction s as [|c s IH]; [by left|].
  change (lines ((c :: s) ++ [LF]))
    with (if (c =? LF)%N then [c] :: lines (s ++ [LF])
          else match lines (s ++ [LF]) with
               | l :: ls => (c :: l) :: ls
               | [] => [[c]]
               end).
  change (lines (c :: s))
    with (if (c =? LF)%N then [c] :: lines s
          else match lines s with
               | l :: ls => (c :: l) :: ls
               | [] => [[c]]
               end).
  destruct (c =? LF)%N.
  - destruct IH as [->|(pre & l & -> & ->)]; [by left|right].
    by exists ([c] :: pre), l.
  - destruct IH as [->|(pre & l & -> & ->)].
    + destruct (lines s) as [|l ls]; [right|by left].
      by exists [], [c].
    + right. destruct pre as [|p pre].
      * by exists [], (c :: l).
      * by exists ((c :: p) :: pre), l.
Qed.

Lemma universal_newlines_snoc_LF s :
  (universal_newlines (s ++ [LF]) = universal_newlines s ++ [LF]
   ∨ universal_newlines (s ++ [LF]) = universal_newlines s)
  ∧ ∀ d, universal_newlines (d :: s ++ [LF]) = universal_newlines (d :: s) ++ [LF]
         ∨ universal_newlines (d :: s ++ [LF]) = universal_newlines (d :: s).
Proof.
  induction s as [|e s [IH1 IH2]].
  - split; [by left|]. intros d.
    change (universal_newlines (d :: [] ++ [LF]))
      with (if (d =? CR)%N then LF :: universal_newlines []
            else d :: universal_newlines [LF]).
    change (universal_newlines [d]) with (if (d =? CR)%N then [LF] else [d]).
    destruct (d =? CR)%N; [by right|by left].
  - split; [apply IH2|]. intros d.
    change (universal_newlines (d :: (e :: s) ++ [LF]))
      with (if (d =? CR)%N
            then if (e =? LF)%N then LF :: universal_newlines (s ++ [LF])
                 else LF :: universal_newlines (e :: s ++ [LF])
            else d :: universal_newlines (e :: s ++ [LF])).
    change (universal_newlines (d :: e :: s))
      with (if (d =? CR)%N
            then if (e =? LF)%N then LF :: universal_newlines s
                 else LF :: universal_newlines (e :: s)
            else d :: universal_newlines (e :: s)).
    destruct (d =? CR)%N; [destruct (e =? LF)%N|].
    + destruct IH1 as [->| ->]; [by left|by right].
    + destruct (IH2 e) as [->| ->]; [by left|by right].
    + destruct (IH2 e) as [->| ->]; [by left|by right].
Qed.

Lemma for_each_load_line_snoc_LF s m :
  for_each load_line (lines (s ++ [LF])) m = for_each load_line (lines s) m.
Proof.
  destruct (lines_snoc_LF s) as [->|(pre & l & -> & ->)];
    rewrite !for_each_app; destruct (for_each load_line _ m) as [m'|];
    try done; cbn [mbind result_bind for_each].
  rewrite (load_line_strip_eq m' (l ++ [LF]) l); [done|].
  by apply strip_pad_right.
Qed.
End line_endings.

(** X5: the loader does not depend on the style of the line endings: the
    same lines joined by ["\r\n"] (Windows), by ["\r"] or by ["\n"] load to
    the same result. *)
Theorem X5_line_ending_style (env_file : str) (ls : list str) :
  Forall one_line ls →
  load_env_file env_file (Some (join_with [CR; LF] ls))
  = load_env_file env_file (Some (join_with [LF] ls))
  ∧ load_env_file env_file (Some (join_with [CR] ls))
    = load_env_file env_file (Some (join_with [LF] ls)).
Proof.
  intros Hls. rewrite !load_env_file_Some. unfold readlines.
  rewrite universal_newlines_join_CRLF, universal_newlines_join_CR by done.
  rewrite universal_newlines_id; [done|].
  rewrite <- universal_newlines_join_CR by done.
  apply universal_newlines_no_CR.
Qed.

Lemma X5_line_ending_style_witness :
  load_env_file (lit "webapp.env")
    (Some (join_with [CR; LF] [lit "N8N_API_KEY=abc"; lit "DEBUG_MODE=true"; []]))
  = load_env_file (lit "webapp.env")
      (Some (join_with [LF] [lit "N8N_API_KEY=abc"; lit "DEBUG_MODE=true"; []]))
  ∧ load_env_file (lit "webapp.env")
      (Some (join_with [CR] [lit "N8N_API_KEY=abc"; lit "DEBUG_MODE=true"; []]))
    = load_env_file (lit "webapp.env")
        (Some (join_with [LF] [lit "N8N_API_KEY=abc"; lit "DEBUG_MODE=true"; []])).
Proof.
  apply (X5_line_ending_style (lit "webapp.env")).
  repeat apply Forall_cons_2; try apply Forall_nil_2;
    split; rewrite <- contains_not_elem; reflexivity.
Defined.

(** X6: a line break added at the end of the file changes nothing: the
    loader returns the same mapping whether or not the last line is
    ended. *)
Theorem X6_final_line_break (env_file text : str) :
  load_env_file env_file (Some (text ++ [LF]))
  = load_env_file env_file (Some text).
Proof.
  rewrite !load_env_file_Some. unfold readlines. f_equal.
  destruct (proj1 (universal_newlines_snoc_LF text)) as [->| ->]; [|done].
  apply for_each_load_line_snoc_LF.
Qed.

(** ** Reading the values back from the payload *)

Section payload_values.
Implicit Types (m : gmap str str) (key : str).

Lemma frame_inj (P S K2 K3 K4 E1 E2 v1 v2 v3 v4 u1 u2 u3 u4 : str) :
  LF ∉ S → LF ∉ E1 →
  LF ∉ v1 → LF ∉ v2 → LF ∉ v3 → LF ∉ v4 →
  LF ∉ u1 → LF ∉ u2 → LF ∉ u3 → LF ∉ u4 →
  P ++ v1 ++ S ++ LF :: K2 ++ v2 ++ S ++ LF :: K3 ++ v3 ++ S ++ LF :: K4
    ++ v4 ++ E1 ++ LF :: E2
  = P ++ u1 ++ S ++ LF :: K2 ++ u2 ++ S ++ LF :: K3 ++ u3 ++ S ++ LF :: K4
      ++ u4 ++ E1 ++ LF :: E2 →
  v1 = u1 ∧ v2 = u2 ∧ v3 = u3 ∧ v4 = u4.
Proof.
  intros HS HE Hv1 Hv2 Hv3 Hv4 Hu1 Hu2 Hu3 Hu4 H.
  assert (∀ (v u T x y : str),
            LF ∉ T → LF ∉ v → LF ∉ u →
            v ++ T ++ LF :: x = u ++ T ++ LF :: y → v = u ∧ x = y) as step.
  { intros v u T x y HT Hv Hu Heq. rewrite !(app_assoc _ T) in Heq.
    apply first_occurrence_unique in Heq as [Heq ->];
      [|by apply not_elem_of_app..].
    by apply app_inv_tail in Heq. }
  apply app_inv_head in H.
  apply step in H as [-> H]; [|done..]. apply app_inv_head in H.
  apply step in H as [-> H]; [|done..]. apply app_inv_head in H.
  apply step in H as [-> H]; [|done..]. apply app_inv_head in H.
  apply step in H as [-> _]; done.
Qed.

(** The four values can be read back from the payload, as long as they
    hold no line break. *)
Lemma payload_with_inj (v1 v2 v3 v4 u1 u2 u3 u4 : str) :
  LF ∉ v1 → LF ∉ v2 → LF ∉ v3 → LF ∉ v4 →
  LF ∉ u1 → LF ∉ u2 → LF ∉ u3 → LF ∉ u4 →
  payload_with v1 v2 v3 v4 = payload_with u1 u2 u3 u4 →
  v1 = u1 ∧ v2 = u2 ∧ v3 = u3 ∧ v4 = u4.
Proof.
  intros Hv1 Hv2 Hv3 Hv4 Hu1 Hu2 Hu3 Hu4 H.
  pose proof (frame_inj
    (lit "// Auto-generated configuration from webapp.env
// This file is generated at server startup

window.ENV = {
    N8N_API_BASE_URL: '")
    (lit "',") (lit "    N8N_API_KEY: '") (lit "    REFRESH_INTERVAL: '")
    (lit "    DEBUG_MODE: '") (lit "'") (lit "};
") v1 v2 v3 v4 u1 u2 u3 u4) as Hf.
  unfold payload_with in H. simpl in H, Hf.
  apply Hf; try done; rewrite <- contains_not_elem; reflexivity.
Qed.

Lemma get_no_LF m key fallback :
  map_Forall clean_entry m → LF ∉ fallback → LF ∉ get m key fallback.
Proof.
  intros Hm Hf. unfold get. destruct (m !! key) as [v|] eqn:Hk; [|done].
  by destruct (Hm key v Hk) as (_ & _ & _ & _ & _ & [? _]).
Qed.

Lemma default_env_get :
  get default_env (lit "N8N_API_BASE_URL") [] = lit "http://localhost:5678/api/v1"
  ∧ get default_env (lit "N8N_API_KEY") [] = lit "your-api-key-here"
  ∧ get default_env (lit "REFRESH_INTERVAL") [] = lit "30000"
  ∧ get default_env (lit "DEBUG_MODE") [] = lit "false".
Proof. by vm_compute. Qed.

(** For mappings as the loader returns them, two payloads are the same
    exactly when the four keys have the same values, the default standing
    in for a key that is not set. *)
Lemma config_content_inj m m' :
  map_Forall clean_entry m → map_Forall clean_entry m' →
  config_content m = config_content m'
  ↔ ∀ key, key ∈ known_keys →
      get m key (get default_env key []) = get m' key (get default_env key []).
Proof.
  intros Hm Hm'. destruct default_env_get as (D1 & D2 & D3 & D4).
  rewrite !config_content_payload_with. split.
  - intros (H1 & H2 & H3 & H4)%payload_with_inj;
      try (apply get_no_LF; [done|rewrite <- contains_not_elem; reflexivity]).
    intros key Hkey. unfold known_keys in Hkey.
    rewrite !elem_of_cons, elem_of_nil in Hkey.
    destruct Hkey as [->|[->|[->|[->|[]]]]].
    + by rewrite D1.
    + by rewrite D2.
    + by rewrite D3.
    + by rewrite D4.
  - intros H.
    pose proof (H (lit "N8N_API_BASE_URL")) as H1. rewrite D1 in H1.
    pose proof (H (lit "N8N_API_KEY")) as H2. rewrite D2 in H2.
    pose proof (H (lit "REFRESH_INTERVAL")) as H3. rewrite D3 in H3.
    pose proof (H (lit "DEBUG_MODE")) as H4. rewrite D4 in H4.
    apply f_equal4; [apply H1|apply H2|apply H3|apply H4];
      unfold known_keys; rewrite !elem_of_cons; auto 10.
Qed.
End payload_values.

(** X7: the payload determines the four values it was rendered from: two
    files render to the same payload exactly when they give each of the
    four known keys the same value, the default standing in for a key
    that a file does not set.  (The values the loader returns hold no line
    break, so the missing escaping cannot blur where a value ends.) *)
Theorem X7_payload_determines_values (env_file text text' : str) :
  ∃ env_vars env_vars',
    load_env_file env_file (Some text) = (Ok env_vars, []) ∧
    load_env_file env_file (Some text') = (Ok env_vars', []) ∧
    (config_content env_vars = config_content env_vars'
     ↔ ∀ key, key ∈ known_keys →
         get env_vars key (get default_env key [])
         = get env_vars' key (get default_env key [])).
Proof.
  destruct (for_each_load_line_total (readlines text) ∅) as [m Hm].
  destruct (for_each_load_line_total (readlines text') ∅) as [m' Hm'].
  exists m, m'. rewrite !load_env_file_Some, Hm, Hm'. split_and!; [done..|].
  apply config_content_inj; by eapply readlines_clean.
Qed.

(** ** What the server prints *)

Section printed.
Implicit Types (w : world) (path : str).

Lemma load_env_file_printed env_file contents :
  (load_env_file env_file contents).2
  = match contents with
    | Some _ => []
    | None => [missing_file_warning env_file]
    end.
Proof. by destruct contents. Qed.

Lemma do_GET_printed w path :
  (do_GET w path).2
  = if bool_decide (path = lit "/config.js")
    then (load_env_file (env_file w) (webapp_env w)).2
    else [].
Proof.
  unfold do_GET. case_bool_decide; [|done].
  by destruct (load_env_file (env_file w) (webapp_env w)).
Qed.

Lemma serve_forever_printed_warnings (requests : list (world * str)) :
  Forall (λ line, ∃ env_file, line = missing_file_warning env_file)
    (serve_forever requests).2.
Proof.
  induction requests as [|[w path] requests IH]; [done|].
  cbn [serve_forever]. pose proof (do_GET_printed w path) as Hp.
  destruct (do_GET w path) as [r printed].
  destruct (serve_forever requests) as [rs printed']. cbn [snd] in *.
  apply Forall_app. split; [|done]. rewrite Hp, load_env_file_printed.
  case_bool_decide; [|done]. destruct (webapp_env w); [done|].
  apply Forall_singleton. by eexists.
Qed.
End printed.

(** X8: what the running server prints is the warning of [load_env_file],
    once for every request of [/config.js] that finds no environment
    file, in the order of the requests: the warning comes again with every
    such request, and no other request prints anything. *)
Theorem X8_warning_per_request (requests : list (world * str)) :
  (serve_forever requests).2
  = (λ req, missing_file_warning (env_file req.1))
    <$> filter (λ req, req.2 = lit "/config.js" ∧ webapp_env req.1 = None)
          requests.
Proof.
  induction requests as [|[w path] requests IH]; [done|].
  cbn [serve_forever]. pose proof (do_GET_printed w path) as Hp.
  destruct (do_GET w path) as [r printed].
  destruct (serve_forever requests) as [rs printed']. cbn [snd] in *.
  rewrite Hp, IH, filter_cons. cbn [fst snd].
  rewrite load_env_file_printed.
  case_bool_decide as Hpath; case_decide as Hd.
  - destruct Hd as [_ ->]. done.
  - destruct (webapp_env w); [done|]. by destruct Hd.
  - by destruct Hd.
  - done.
Qed.

(** ** The startup banner *)

Section banner.
Implicit Types (m : gmap str str) (w : world) (s key : str).

Lemma last4_app hidden shown : length shown = 4 → last4 (hidden ++ shown) = shown.
Proof.
  intros H. unfold last4. rewrite length_app, H.
  replace (length hidden + 4 - 4) with (length hidden) by lia.
  by rewrite drop_app_length.
Qed.

Lemma last4_short s : length s ≤ 4 → last4 s = s.
Proof.
  intros H. unfold last4. by replace (length s - 4) with 0 by lia.
Qed.

(** The lines of a run of [main] whose load returns [m]. *)
Lemma main_stdout PORT w requests m :
  (load_env_file (env_file w) (webapp_env w)).1 = Ok m →
  (main PORT w requests).1
  = [str_mul (lit "=") 80; lit "n8n User Management Web Application";
     str_mul (lit "=") 80]
    ++ (load_env_file (env_file w) (webapp_env w)).2
    ++ [lit "
Configuration loaded:";
        lit "  N8N_API_BASE_URL: " ++ format_get m (lit "N8N_API_BASE_URL");
        lit "  N8N_API_KEY: " ++ str_mul (lit "*") 8
          ++ last4 (get m (lit "N8N_API_KEY") []);
        lit "  REFRESH_INTERVAL: " ++ format_get m (lit "REFRESH_INTERVAL")
          ++ lit "ms";
        lit "  DEBUG_MODE: " ++ format_get m (lit "DEBUG_MODE");
        lit "
Starting server on http://localhost:" ++ lit (pretty PORT);
        lit "Press Ctrl+C to stop the server
";
        str_mul (lit "=") 80]
    ++ (serve_forever requests).2
    ++ [lit "

Server stopped."].
Proof.
  intros Hload. unfold main.
  destruct (load_env_file (env_file w) (webapp_env w)) as [loaded printed].
  cbn [fst snd] in *. subst loaded.
  by destruct (serve_forever requests) as [rs served].
Qed.

Lemma filter_key_line_banner (b k r d p : str) :
  filter (λ line, startswith (lit "  N8N_API_KEY: ") line = true)
    [lit "
Configuration loaded:";
     lit "  N8N_API_BASE_URL: " ++ b;
     lit "  N8N_API_KEY: " ++ str_mul (lit "*") 8 ++ k;
     lit "  REFRESH_INTERVAL: " ++ r ++ lit "ms";
     lit "  DEBUG_MODE: " ++ d;
     lit "
Starting server on http://localhost:" ++ p;
     lit "Press Ctrl+C to stop the server
";
     str_mul (lit "=") 80]
  = [lit "  N8N_API_KEY: ********" ++ k].
Proof. by vm_compute. Qed.

Lemma filter_key_line_warnings (ls : list str) :
  Forall (λ line, ∃ env_file, line = missing_file_warning env_file) ls →
  filter (λ line, startswith (lit "  N8N_API_KEY: ") line = true) ls = [].
Proof.
  induction 1 as [|l ls [f ->] _ IH]; [done|].
  rewrite filter_cons, IH. by vm_compute.
Qed.

Lemma load_env_file_printed_warnings env_file contents :
  Forall (λ line, ∃ f, line = missing_file_warning f)
    (load_env_file env_file contents).2.
Proof.
  rewrite load_env_file_printed. destruct contents; [done|].
  apply Forall_singleton. by eexists.
Qed.
End banner.

(** X9: the banner of [main] shows the API key masked: of all the lines
    printed in a run, one names [N8N_API_KEY], and it shows eight stars
    and then the last four characters of the key, whatever comes before
    them.  A key of four characters or fewer is shown in full behind the
    stars. *)
Theorem X9_banner_masks_api_key (PORT : Z) (w : world)
    (requests : list (world * str)) (env_vars : gmap str str)
    (hidden shown : str) :
  (load_env_file (env_file w) (webapp_env w)).1 = Ok env_vars →
  env_vars !! lit "N8N_API_KEY" = Some (hidden ++ shown) →
  length shown = 4 ∨ (hidden = [] ∧ length shown ≤ 4) →
  filter (λ line, startswith (lit "  N8N_API_KEY: ") line = true)
    (main PORT w requests).1
  = [lit "  N8N_API_KEY: ********" ++ shown].
Proof.
  intros Hload Hkey Hshown. rewrite (main_stdout _ _ _ _ Hload).
  rewrite (get_Some _ _ _ _ Hkey).
  assert (last4 (hidden ++ shown) = shown) as ->.
  { destruct Hshown as [?|[-> ?]]; [by apply last4_app|by apply last4_short]. }
  rewrite !filter_app, filter_key_line_banner.
  rewrite (filter_key_line_warnings _ (load_env_file_printed_warnings _ _)).
  rewrite (filter_key_line_warnings _ (serve_forever_printed_warnings _)).
  by vm_compute.
Qed.

Lemma X9_banner_masks_api_key_witness :
  filter (λ line, startswith (lit "  N8N_API_KEY: ") line = true)
    (main 8080
       (World (lit "webapp.env") (Some (lit "N8N_API_KEY=n8n_api_0123456789"))
          (λ _, None) [])
       [(World (lit "webapp.env") None (λ _, None) [], lit "/config.js")]).1
  = [lit "  N8N_API_KEY: ********" ++ lit "6789"].
Proof.
  apply (X9_banner_masks_api_key 8080
           (World (lit "webapp.env") (Some (lit "N8N_API_KEY=n8n_api_0123456789"))
              (λ _, None) [])
           [(World (lit "webapp.env") None (λ _, None) [], lit "/config.js")]
           {[ lit "N8N_API_KEY" := lit "n8n_api_0123456789" ]}
           (lit "n8n_api_012345") (lit "6789")).
  - vm_compute. reflexivity.
  - vm_compute. reflexivity.
  - left. reflexivity.
Defined.

Section banner_defaults.
Implicit Types (m : gmap str str) (w : world) (key : str).

Lemma get_None m key fallback : m !! key = None → get m key fallback = fallback.
Proof. intros H. unfold get. by rewrite H. Qed.

(** A known key that the mapping does not hold is shown with its
    default. *)
Lemma config_content_shows_default m key :
  key ∈ known_keys → m !! key = None →
  ∃ default,
    default_env !! key = Some default
    ∧ occurs_in (config_line key default) (config_content m).
Proof.
  intros Hkey Hm. rewrite config_content_payload_with.
  pose proof (payload_with_shows
    (get m (lit "N8N_API_BASE_URL") (lit "http://localhost:5678/api/v1"))
    (get m (lit "N8N_API_KEY") (lit "your-api-key-here"))
    (get m (lit "REFRESH_INTERVAL") (lit "30000"))
    (get m (lit "DEBUG_MODE") (lit "false"))) as (H1 & H2 & H3 & H4).
  unfold known_keys in Hkey. rewrite !elem_of_cons, elem_of_nil in Hkey.
  destruct Hkey as [->|[->|[->|[->|[]]]]].
  - exists (lit "http://localhost:5678/api/v1"). split; [by vm_compute|].
    by rewrite (get_None _ _ _ Hm) in H1 at 1.
  - exists (lit "your-api-key-here"). split; [by vm_compute|].
    by rewrite (get_None _ _ _ Hm) in H2 at 1.
  - exists (lit "30000"). split; [by vm_compute|].
    by rewrite (get_None _ _ _ Hm) in H3 at 1.
  - exists (lit "false"). split; [by vm_compute|].
    by rewrite (get_None _ _ _ Hm) in H4 at 1.
Qed.

Lemma format_get_None m key : m !! key = None → format_get m key = lit "None".
Proof. intros H. unfold format_get. by rewrite H. Qed.
End banner_defaults.

(** X10: for a key that an existing file does not set, the banner of
    [main] and the payload disagree: the banner shows [None] for
    [N8N_API_BASE_URL], [REFRESH_INTERVAL] and [DEBUG_MODE], while the
    payload rendered from the same file shows the key with its default
    value. *)
Theorem X10_banner_none_payload_default (PORT : Z) (w : world)
    (requests : list (world * str)) (text key : str) :
  webapp_env w = Some text →
  key ∈ [lit "N8N_API_BASE_URL"; lit "REFRESH_INTERVAL"; lit "DEBUG_MODE"] →
  (∀ line value, line ∈ readlines text → ¬ contributes line key value) →
  (∃ suffix,
     lit "  " ++ key ++ lit ": None" ++ suffix ∈ (main PORT w requests).1)
  ∧ ∃ default payload,
      default_env !! key = Some default ∧
      load_then_render (env_file w) (Some text) = Ok payload ∧
      occurs_in (config_line key default) payload.
Proof.
  intros Hw Hkey Hunset.
  destruct (for_each_load_line_total (readlines text) ∅) as [m Hm].
  assert (m !! key = None) as Hnone.
  { apply eq_None_not_Some.
    rewrite (for_each_load_line_dom _ _ _ key Hm), lookup_empty.
    intros [[? [=]]|(line & value & Hline & Hc)]. by eapply Hunset. }
  assert ((load_env_file (env_file w) (webapp_env w)).1 = Ok m) as Hload
    by by rewrite Hw, load_env_file_Some.
  split.
  - rewrite (main_stdout _ _ _ _ Hload).
    rewrite !elem_of_cons, elem_of_nil in Hkey.
    destruct Hkey as [->|[->|[->|[]]]];
      rewrite (format_get_None _ _ Hnone).
    + exists []. rewrite !elem_of_app. right; right; left.
      apply elem_of_cons; right. apply elem_of_cons; left. by vm_compute.
    + exists (lit "ms"). rewrite !elem_of_app. right; right; left.
      do 3 (apply elem_of_cons; right). apply elem_of_cons; left.
      by vm_compute.
    + exists []. rewrite !elem_of_app. right; right; left.
      do 4 (apply elem_of_cons; right). apply elem_of_cons; left.
      by vm_compute.
  - assert (key ∈ known_keys) as Hknown.
    { unfold known_keys. rewrite !elem_of_cons, elem_of_nil in Hkey.
      rewrite !elem_of_cons. destruct Hkey as [->|[->|[->|[]]]]; auto 10. }
    destruct (config_content_shows_default m key Hknown Hnone)
      as (default & Hdefault & Hshown).
    exists default, (config_content m). split_and!; [done| |done].
    unfold load_then_render. rewrite load_env_file_Some. cbn [fst].
    by rewrite Hm.
Qed.

Lemma X10_banner_none_payload_default_witness :
  (∃ suffix,
     lit "  " ++ lit "REFRESH_INTERVAL" ++ lit ": None" ++ suffix
     ∈ (main 8080
          (World (lit "webapp.env") (Some (lit "N8N_API_KEY=abc")) (λ _, None) [])
          []).1)
  ∧ ∃ default payload,
      default_env !! lit "REFRESH_INTERVAL" = Some default ∧
      load_then_render (lit "webapp.env") (Some (lit "N8N_API_KEY=abc"))
      = Ok payload ∧
      occurs_in (config_line (lit "REFRESH_INTERVAL") default) payload.
Proof.
  apply (X10_banner_none_payload_default 8080
           (World (lit "webapp.env") (Some (lit "N8N_API_KEY=abc")) (λ _, None) [])
           [] (lit "N8N_API_KEY=abc") (lit "REFRESH_INTERVAL")).
  - reflexivity.
  - apply (bool_decide_unpack _). vm_compute. exact I.
  - intros line value Hline Hc.
    change (line ∈ [lit "N8N_API_KEY=abc"]) in Hline.
    apply list_elem_of_singleton in Hline as ->.
    assert (EQ ∉ lit "N8N_API_KEY") as Hl
      by (rewrite <- contains_not_elem; reflexivity).
    destruct (contributes_split _ (lit "N8N_API_KEY") (lit "abc") _ _
                eq_refl Hl Hc) as [Hkey _].
    vm_compute in Hkey. discriminate.
Defined.

(** ** Content-Length *)

Section content_length.
Implicit Types (m : gmap str str) (s t line : str) (c : char) (b : bytes).

Lemma utf8_char_length c b : utf8_char c = Ok b → 1 ≤ length b ≤ 4.
Proof.
  unfold utf8_char. repeat case_match; intros [= <-]; simpl; lia.
Qed.

(** One to four bytes for each character. *)
Lemma encode_length s b :
  encode s = Ok b → length s ≤ length b ≤ 4 * length s.
Proof.
  revert b. induction s as [|c s IH]; intros b; simpl.
  - intros [= <-]. simpl. lia.
  - destruct (utf8_char c) as [b1|] eqn:Hc; [|done]. simpl.
    destruct (encode s) as [b2|]; [|done]. simpl. intros [= <-].
    apply utf8_char_length in Hc. specialize (IH b2 eq_refl).
    rewrite length_app. lia.
Qed.

(** ASCII text is its own encoding. *)
Lemma encode_ascii s : ascii_text s → encode s = Ok s.
Proof.
  induction 1 as [|c s Hc _ IH]; [done|]. simpl.
  unfold utf8_char. destruct (N.ltb_spec c 0x80) as [_|?]; [|lia].
  simpl. by rewrite IH.
Qed.

Lemma ascii_text_subset s t : (∀ c, c ∈ s → c ∈ t) → ascii_text t → ascii_text s.
Proof.
  unfold ascii_text. rewrite !Forall_forall. intros Hst Ht c Hc.
  by apply Ht, Hst.
Qed.

Lemma readlines_ascii text : ascii_text text → Forall ascii_text (readlines text).
Proof.
  intros Ht. apply Forall_forall. intros l Hl.
  unfold ascii_text. apply Forall_forall. intros c Hc.
  pose proof (lines_elem _ _ _ Hl Hc) as Hu.
  apply (proj1 (universal_newlines_elem text)) in Hu as [Hu| ->]; [|done].
  unfold ascii_text in Ht. rewrite Forall_forall in Ht. by apply Ht.
Qed.

Lemma load_line_ascii m m' line :
  ascii_text line → map_Forall (λ _ v, ascii_text v) m →
  load_line m line = Ok m' → map_Forall (λ _ v, ascii_text v) m'.
Proof.
  intros Hline Hm.
  destruct (load_line_total m line) as [->|(l & r & Hs & _ & _ & ->)];
    intros [= <-]; [done|].
  apply map_Forall_insert_2; [|done].
  apply (ascii_text_subset _ line); [|done]. intros c Hc%strip_elem.
  apply strip_elem. rewrite Hs. apply elem_of_app. right. by right.
Qed.

Lemma for_each_load_line_ascii ls m m' :
  Forall ascii_text ls → map_Forall (λ _ v, ascii_text v) m →
  for_each load_line ls m = Ok m' → map_Forall (λ _ v, ascii_text v) m'.
Proof.
  intros Hls. revert m. induction Hls as [|line ls Hline _ IH]; intros m Hm.
  - by intros [= <-].
  - simpl. destruct (load_line m line) as [m1|] eqn:H1; [|done]. simpl.
    apply IH. by eapply load_line_ascii.
Qed.

Lemma default_env_ascii : map_Forall (λ _ v, ascii_text v) default_env.
Proof.
  unfold default_env. simpl.
  repeat (apply map_Forall_insert_2;
          [apply (bool_decide_unpack _); by vm_compute|]).
  apply map_Forall_empty.
Qed.

Lemma load_env_file_ascii env_file contents m :
  match contents with Some text => ascii_text text | None => True end →
  (load_env_file env_file contents).1 = Ok m →
  map_Forall (λ _ v, ascii_text v) m.
Proof.
  destruct contents as [text|]; cbn [load_env_file fst]; intros Ht Hm.
  - eapply for_each_load_line_ascii;
      [by apply readlines_ascii|apply map_Forall_empty|done].
  - injection Hm as <-. apply default_env_ascii.
Qed.

Lemma get_ascii m key fallback :
  map_Forall (λ _ v, ascii_text v) m → ascii_text fallback →
  ascii_text (get m key fallback).
Proof.
  intros Hm Hf. unfold get. destruct (m !! key) eqn:Hk; [|done].
  by apply (Hm key).
Qed.

Lemma config_content_ascii m :
  map_Forall (λ _ v, ascii_text v) m → ascii_text (config_content m).
Proof.
  intros Hm. unfold config_content, ascii_text.
  repeat (apply Forall_app; split);
    try (apply get_ascii; [done|]);
    apply (bool_decide_unpack _); by vm_compute.
Qed.
End content_length.

(** X11: the [Content-Length] sent with the payload counts the bytes of
    the body that is written, not the characters of the payload: it is at
    least the number of characters and at most four times as much, and it
    is the number of characters when the environment file is ASCII. *)
Theorem X11_content_length_counts_bytes (w : world) :
  decoded_world w →
  ∃ env_vars r n,
    (load_env_file (env_file w) (webapp_env w)).1 = Ok env_vars ∧
    (do_GET w (lit "/config.js")).1 = Ok r ∧
    header (lit "Content-Length") r = [HInt n] ∧
    n = length (body r) ∧
    length (config_content env_vars) ≤ n ≤ 4 * length (config_content env_vars) ∧
    (match webapp_env w with Some text => ascii_text text | None => True end →
     n = length (config_content env_vars)).
Proof.
  intros Hw.
  destruct (load_env_file_decoded (env_file w) (webapp_env w) Hw)
    as (env_vars & Hload & Hm).
  destruct (encode_decoded _ (config_content_decoded _ Hm)) as [payload Henc].
  eexists env_vars, _, (length payload).
  split_and!; [done|exact (do_GET_config_js _ _ _ Hload Henc)|..].
  - by vm_compute.
  - reflexivity.
  - by apply encode_length.
  - by apply encode_length.
  - intros Hascii.
    pose proof (load_env_file_ascii _ _ _ Hascii Hload) as Ha.
    rewrite (encode_ascii _ (config_content_ascii _ Ha)) in Henc.
    by injection Henc as <-.
Qed.

Lemma X11_content_length_counts_bytes_witness :
  ∃ env_vars r n,
    (load_env_file (lit "webapp.env")
       (Some (lit "N8N_API_KEY=" ++ [0x20AC%N]))).1 = Ok env_vars ∧
    (do_GET (World (lit "webapp.env") (Some (lit "N8N_API_KEY=" ++ [0x20AC%N]))
               (λ _, None) []) (lit "/config.js")).1 = Ok r ∧
    header (lit "Content-Length") r = [HInt n] ∧
    n = length (body r) ∧
    length (config_content env_vars) ≤ n ≤ 4 * length (config_content env_vars) ∧
    (ascii_text (lit "N8N_API_KEY=" ++ [0x20AC%N]) →
     n = length (config_content env_vars)).
Proof.
  apply (X11_content_length_counts_bytes
           (World (lit "webapp.env") (Some (lit "N8N_API_KEY=" ++ [0x20AC%N]))
              (λ _, None) [])).
  apply (bool_decide_unpack _). vm_compute. exact I.
Defined.

(** * The payload of a well-formed file, and reloading *)

(** ** The encoding is one to one *)

Section utf8.
Implicit Types (c d x : N) (s t : str) (b : bytes).

Lemma lor_add a x : N.land a x = 0%N → N.lor a x = (a + x)%N.
Proof.
  intros H. by rewrite (N.add_nocarry_lxor _ _ H), (N.lxor_lor _ _ H).
Qed.

Lemma land_high_low k a x : (x < 2 ^ k)%N → N.land (a * 2 ^ k)%N x = 0%N.
Proof.
  intros Hx. apply N.bits_inj_0. intros n. rewrite N.land_spec.
  destruct (N.lt_ge_cases n k) as [Hn|Hn].
  - rewrite N.mul_pow2_bits_low by done. done.
  - destruct (N.eq_dec x 0%N) as [->|Hx0];
      [by rewrite N.bits_0, andb_false_r|].
    rewrite (N.bits_above_log2 x n), andb_false_r; [done|].
    apply N.log2_lt_pow2 in Hx; lia.
Qed.

Lemma lor_C0 x : (x < 32)%N → N.lor 0xC0 x = (192 + x)%N.
Proof. intros H. apply lor_add, (land_high_low 5 6)%N. exact H. Qed.

Lemma lor_80 x : (x < 64)%N → N.lor 0x80 x = (128 + x)%N.
Proof. intros H. apply lor_add, (land_high_low 6 2)%N. exact H. Qed.

Lemma lor_E0 x : (x < 16)%N → N.lor 0xE0 x = (224 + x)%N.
Proof. intros H. apply lor_add, (land_high_low 4 14)%N. exact H. Qed.

Lemma lor_F0 x : (x < 8)%N → N.lor 0xF0 x = (240 + x)%N.
Proof. intros H. apply lor_add, (land_high_low 3 30)%N. exact H. Qed.

Lemma land_3F x : N.land x 0x3F = (x mod 64)%N.
Proof. exact (N.land_ones x 6%N). Qed.

Lemma shiftr_div x k : N.shiftr x k = (x / 2 ^ k)%N.
Proof. apply N.shiftr_div_pow2. Qed.

(** The bytes of a code point, by arithmetic. *)
Lemma utf8_char_cases c b :
  utf8_char c = Ok b →
  ((c < 128 ∧ b = [c])
   ∨ (∃ q r0, c = 64 * q + r0 ∧ q < 32 ∧ r0 < 64 ∧ b = [192 + q; 128 + r0])
   ∨ (∃ q r1 r0,
        c = 4096 * q + 64 * r1 + r0 ∧ q < 16 ∧ r1 < 64 ∧ r0 < 64 ∧
        b = [224 + q; 128 + r1; 128 + r0])
   ∨ (∃ q r2 r1 r0,
        c = 262144 * q + 4096 * r2 + 64 * r1 + r0 ∧
        q < 8 ∧ r2 < 64 ∧ r1 < 64 ∧ r0 < 64 ∧
        b = [240 + q; 128 + r2; 128 + r1; 128 + r0]))%N.
Proof.
  unfold utf8_char. rewrite !land_3F, !shiftr_div.
  change (2 ^ 6)%N with 64%N. change (2 ^ 12)%N with 4096%N.
  change (2 ^ 18)%N with 262144%N.
  pose proof (N.div_mod' c 64%N) as H0.
  pose proof (N.mod_lt c 64%N ltac:(done)) as B0.
  pose proof (N.div_mod' (c / 64)%N 64%N) as H1.
  pose proof (N.mod_lt (c / 64)%N 64%N ltac:(done)) as B1.
  pose proof (N.div_mod' (c / 4096)%N 64%N) as H2.
  pose proof (N.mod_lt (c / 4096)%N 64%N ltac:(done)) as B2.
  replace (c / 64 / 64)%N with (c / 4096)%N in H1
    by (by rewrite N.Div0.div_div).
  replace (c / 4096 / 64)%N with (c / 262144)%N in H2
    by (by rewrite N.Div0.div_div).
  generalize dependent (c / 262144)%N. intros q3.
  generalize dependent (c / 4096 mod 64)%N. intros r2.
  generalize dependent (c / 4096)%N. intros q2.
  generalize dependent (c / 64 mod 64)%N. intros r1.
  generalize dependent (c / 64)%N. intros q1.
  generalize dependent (c mod 64)%N. intros r0 B0 H0 H1 B1 H2 B2.
  destruct (N.ltb_spec c 0x80); [intros [= <-]; by left|].
  destruct (N.ltb_spec c 0x800).
  { intros [= <-]. right; left. exists q1, r0.
    rewrite lor_C0, lor_80 by lia. split_and!; [lia..|done]. }
  destruct (N.ltb_spec c 0x10000).
  { destruct (_ && _); [done|]. intros [= <-]. right; right; left.
    exists q2, r1, r0.
    rewrite lor_E0, !lor_80 by lia. split_and!; [lia..|done]. }
  destruct (N.ltb_spec c 0x110000); [|done].
  intros [= <-]. right; right; right. exists q3, r2, r1, r0.
  rewrite lor_F0, !lor_80 by lia. split_and!; [lia..|done].
Qed.

Lemma utf8_char_inj c d b b' t t' :
  utf8_char c = Ok b → utf8_char d = Ok b' →
  b ++ t = b' ++ t' → c = d ∧ t = t'.
Proof.
  intros Hc Hd.
  destruct (utf8_char_cases _ _ Hc)
    as [[? ->]|[(q & r0 & -> & ? & ? & ->)
       |[(q & r1 & r0 & -> & ? & ? & ? & ->)
        |(q & r2 & r1 & r0 & -> & ? & ? & ? & ? & ->)]]];
  destruct (utf8_char_cases _ _ Hd)
    as [[? ->]|[(q' & r0' & -> & ? & ? & ->)
       |[(q' & r1' & r0' & -> & ? & ? & ? & ->)
        |(q' & r2' & r1' & r0' & -> & ? & ? & ? & ? & ->)]]];
  intros Heq; simplify_list_eq; (split; [lia|done]) || lia.
Qed.

Lemma encode_inj s t b : encode s = Ok b → encode t = Ok b → s = t.
Proof.
  revert t b. induction s as [|c s IH]; intros [|d t] b; simpl; try done.
  - intros [= <-]. destruct (utf8_char d) as [b1|] eqn:Hd; [|done]. simpl.
    destruct (encode t) as [b2|]; [|done]. simpl. intros [= Hb].
    apply utf8_char_length in Hd. destruct b1; simpl in *; [lia|done].
  - destruct (utf8_char c) as [b1|] eqn:Hc; [|done]. simpl.
    destruct (encode s) as [b2|]; [|done]. simpl. intros [= <-] [= Hb].
    apply utf8_char_length in Hc. symmetry in Hb.
    destruct b1; simpl in *; [lia|done].
  - destruct (utf8_char c) as [b1|] eqn:Hc; [|done]. simpl.
    destruct (encode s) as [b2|] eqn:Hs; [|done]. simpl. intros [= <-].
    destruct (utf8_char d) as [b1'|] eqn:Hd; [|done]. simpl.
    destruct (encode t) as [b2'|] eqn:Ht; [|done]. simpl. intros [= Hb].
    destruct (utf8_char_inj _ _ _ _ _ _ Hc Hd (eq_sym Hb)) as [-> ->].
    f_equal. by apply (IH t b2').
Qed.
End utf8.

(** ** What a file gives a key *)

Section file_sets.
Implicit Types (m : gmap str str) (text line key value : str).

Lemma file_sets_lookup text m key value :
  for_each load_line (readlines text) ∅ = Ok m →
  m !! key = Some value ↔ file_sets text key value.
Proof.
  intros Hm. split.
  - intros Hkey.
    destruct (for_each_load_line_lookup _ _ _ _ _ Hm Hkey) as [[[=] _]|?].
    done.
  - intros (pre & line & post & Hlines & Hc & Hpost).
    rewrite Hlines, for_each_app in Hm.
    destruct (for_each_load_line_total pre ∅) as [before Hpre].
    rewrite Hpre in Hm. simpl in Hm.
    rewrite (load_line_contributes _ _ _ _ Hc) in Hm. simpl in Hm.
    rewrite (for_each_load_line_other _ _ _ _ Hpost Hm).
    apply lookup_insert_eq.
Qed.

Lemma lookup_None_no_line text m key :
  for_each load_line (readlines text) ∅ = Ok m →
  m !! key = None
  ↔ ∀ line value, line ∈ readlines text → ¬ contributes line key value.
Proof.
  intros Hm. rewrite eq_None_not_Some.
  rewrite (for_each_load_line_dom _ _ _ key Hm), lookup_empty. split.
  - intros Hno line value Hline Hc. apply Hno. right. by exists line, value.
  - intros Hno [[? [=]]|(line & value & Hline & Hc)]. by eapply Hno.
Qed.

(** A line of a well-formed file is skipped as blank or as a comment, or
    it sets a key. *)
Lemma well_formed_line_contributes line :
  well_formed_line line →
  strip line = [] ∨ startswith (lit "#") (strip line) = true
  ∨ ∃ key value, contributes line key value.
Proof.
  intros [?|[?|Heq]]; [by left|by right; left|].
  destruct (startswith (lit "#") (strip line)) eqn:Hh; [by right; left|].
  right; right. apply first_occurrence in Heq as (l & r & Hline & Hl).
  by exists (strip l), (strip r), l, r.
Qed.

Lemma config_content_filter_known m :
  config_content (filter (λ kv, kv.1 ∈ known_keys) m) = config_content m.
Proof.
  apply config_content_ext. intros key Hkey.
  destruct (m !! key) as [v|] eqn:Hm.
  - by apply map_lookup_filter_Some.
  - apply map_lookup_filter_None. by left.
Qed.

Lemma default_env_clean : map_Forall clean_entry default_env.
Proof.
  unfold default_env. simpl.
  repeat (apply map_Forall_insert_2;
          [repeat split; try (rewrite <- contains_not_elem; reflexivity);
             by vm_compute|]).
  apply map_Forall_empty.
Qed.

Lemma load_env_file_clean env_file contents m :
  (load_env_file env_file contents).1 = Ok m → map_Forall clean_entry m.
Proof.
  destruct contents as [text|]; cbn [load_env_file fst].
  - apply readlines_clean.
  - intros [= <-]. apply default_env_clean.
Qed.
End file_sets.

(** C1: for every well-formed [KEY=VALUE] file (blank lines, comments and
    lines with an ['='], with any padding and any style of line endings),
    loading succeeds, every line that is neither blank nor a comment sets
    a key, and the payload rendered from the loaded mapping holds, for
    each of the four known keys, the literal value the file gives the key
    as the key's single-quoted value (the default when the file does not
    set the key).  Keys other than these four are ignored by the renderer:
    the payload is the one rendered from the four known keys alone, and
    every well-formed file that gives the four known keys the same values
    renders to the same payload, whatever other keys and values it
    holds. *)
Theorem C1_well_formed_file_payload (env_file text : str) :
  well_formed_file text →
  ∃ env_vars payload,
    load_env_file env_file (Some text) = (Ok env_vars, []) ∧
    load_then_render env_file (Some text) = Ok payload ∧
    Forall (λ line,
              strip line = [] ∨ startswith (lit "#") (strip line) = true
              ∨ ∃ key value, contributes line key value ∧
                             is_Some (env_vars !! key))
           (readlines text) ∧
    (∀ key value,
       key ∈ known_keys → file_sets text key value →
       env_vars !! key = Some value ∧
       occurs_in (config_line key value) payload) ∧
    (∀ key,
       key ∈ known_keys →
       (∀ line value, line ∈ readlines text → ¬ contributes line key value) →
       ∃ default,
         default_env !! key = Some default ∧
         occurs_in (config_line key default) payload) ∧
    config_content (filter (λ kv, kv.1 ∈ known_keys) env_vars) = payload ∧
    (∀ text',
       well_formed_file text' →
       (∀ key value,
          key ∈ known_keys →
          file_sets text' key value ↔ file_sets text key value) →
       load_then_render env_file (Some text') = Ok payload).
Proof.
  intros Hwf.
  destruct (for_each_load_line_total (readlines text) ∅) as [m Hm].
  exists m, (config_content m).
  assert (load_then_render env_file (Some text) = Ok (config_content m))
    as Hrender.
  { unfold load_then_render. rewrite load_env_file_Some. cbn [fst].
    by rewrite Hm. }
  split_and!.
  - by rewrite load_env_file_Some, Hm.
  - done.
  - apply Forall_forall. intros line Hline.
    unfold well_formed_file in Hwf. rewrite Forall_forall in Hwf.
    destruct (well_formed_line_contributes line (Hwf line Hline))
      as [?|[?|(key & value & Hc)]]; [by left|by right; left|].
    right; right. exists key, value. split; [done|].
    apply (for_each_load_line_dom _ _ _ key Hm). right. by exists line, value.
  - intros key value Hkey Hsets.
    apply (file_sets_lookup text m) in Hsets; [|done].
    split; [done|]. by apply config_content_shows.
  - intros key Hkey Hunset. apply config_content_shows_default; [done|].
    by apply (lookup_None_no_line text).
  - apply config_content_filter_known.
  - intros text' _ Hsame.
    destruct (for_each_load_line_total (readlines text') ∅) as [m' Hm'].
    unfold load_then_render. rewrite load_env_file_Some. cbn [fst].
    rewrite Hm'. cbn [mbind result_bind]. f_equal.
    apply config_content_ext. intros key Hkey.
    destruct (m !! key) as [v|] eqn:Hk.
    + apply (file_sets_lookup text') ; [done|]. apply Hsame; [done|].
      by apply (file_sets_lookup text m).
    + destruct (m' !! key) as [v'|] eqn:Hk'; [|done].
      apply (file_sets_lookup text' m') in Hk'; [|done].
      apply Hsame in Hk'; [|done].
      apply (file_sets_lookup text m) in Hk'; [|done]. congruence.
Qed.

Lemma C1_well_formed_file_payload_witness :
  ∃ env_vars payload,
    load_env_file (lit "webapp.env") (Some example_file) = (Ok env_vars, []) ∧
    load_then_render (lit "webapp.env") (Some example_file) = Ok payload ∧
    Forall (λ line,
              strip line = [] ∨ startswith (lit "#") (strip line) = true
              ∨ ∃ key value, contributes line key value ∧
                             is_Some (env_vars !! key))
           (readlines example_file) ∧
    (∀ key value,
       key ∈ known_keys → file_sets example_file key value →
       env_vars !! key = Some value ∧
       occurs_in (config_line key value) payload) ∧
    (∀ key,
       key ∈ known_keys →
       (∀ line value,
          line ∈ readlines example_file → ¬ contributes line key value) →
       ∃ default,
         default_env !! key = Some default ∧
         occurs_in (config_line key default) payload) ∧
    config_content (filter (λ kv, kv.1 ∈ known_keys) env_vars) = payload ∧
    (∀ text',
       well_formed_file text' →
       (∀ key value,
          key ∈ known_keys →
          file_sets text' key value ↔ file_sets example_file key value) →
       load_then_render (lit "webapp.env") (Some text') = Ok payload).
Proof.
  apply (C1_well_formed_file_payload (lit "webapp.env") example_file).
  unfold well_formed_file, well_formed_line.
  apply (bool_decide_unpack _). vm_compute. exact I.
Defined.

(** C7: the configuration is loaded again for every request of
    [/config.js].  The response to such a request is computed from the
    environment file as it is when that request is handled: its body is
    the encoded payload of the mapping loaded from those contents, and
    that payload shows, for each known key, the value those contents give
    the key.  Two requests, whatever was served before and between them
    and without any restart, answer with the same body exactly when their
    files give the four known keys the same shown values; so when two
    files give a known key different values, the two bodies differ. *)
Theorem C7_reload_per_request (requests : list (world * str)) (i j : nat)
    (w w' : world) :
  requests !! i = Some (w, lit "/config.js") →
  requests !! j = Some (w', lit "/config.js") →
  decoded_world w → decoded_world w' →
  ∃ env_vars env_vars' r r',
    (load_env_file (env_file w) (webapp_env w)).1 = Ok env_vars ∧
    (load_env_file (env_file w') (webapp_env w')).1 = Ok env_vars' ∧
    (serve_forever requests).1 !! i = Some (Ok r) ∧
    (serve_forever requests).1 !! j = Some (Ok r') ∧
    encode (config_content env_vars) = Ok (body r) ∧
    encode (config_content env_vars') = Ok (body r') ∧
    (∀ text key value,
       webapp_env w = Some text → key ∈ known_keys →
       file_sets text key value →
       shown_value env_vars key = value ∧
       occurs_in (config_line key value) (config_content env_vars)) ∧
    (∀ text key value,
       webapp_env w' = Some text → key ∈ known_keys →
       file_sets text key value →
       shown_value env_vars' key = value ∧
       occurs_in (config_line key value) (config_content env_vars')) ∧
    (body r = body r'
     ↔ ∀ key, key ∈ known_keys →
         shown_value env_vars key = shown_value env_vars' key) ∧
    (∀ text text' key value value',
       webapp_env w = Some text → webapp_env w' = Some text' →
       key ∈ known_keys →
       file_sets text key value → file_sets text' key value' →
       value ≠ value' → body r ≠ body r').
Proof.
  intros Hi Hj Hw Hw'.
  destruct (load_env_file_decoded (env_file w) (webapp_env w) Hw)
    as (m & Hload & Hm).
  destruct (load_env_file_decoded (env_file w') (webapp_env w') Hw')
    as (m' & Hload' & Hm').
  destruct (encode_decoded _ (config_content_decoded _ Hm)) as [b Henc].
  destruct (encode_decoded _ (config_content_decoded _ Hm')) as [b' Henc'].
  pose proof (load_env_file_clean _ _ _ Hload) as Hclean.
  pose proof (load_env_file_clean _ _ _ Hload') as Hclean'.
  assert (∀ v text key value,
            (load_env_file (env_file v) (webapp_env v)).1 = Ok m →
            webapp_env v = Some text → key ∈ known_keys →
            file_sets text key value →
            shown_value m key = value
            ∧ occurs_in (config_line key value) (config_content m)) as Hshow.
  { clear. intros v text key value Hload Hv Hkey Hsets.
    rewrite Hv, load_env_file_Some in Hload. cbn [fst] in Hload.
    apply (file_sets_lookup text m) in Hsets; [|done].
    split; [by apply get_Some|by apply config_content_shows]. }
  assert (∀ v text key value,
            (load_env_file (env_file v) (webapp_env v)).1 = Ok m' →
            webapp_env v = Some text → key ∈ known_keys →
            file_sets text key value →
            shown_value m' key = value
            ∧ occurs_in (config_line key value) (config_content m')) as Hshow'.
  { clear. intros v text key value Hload Hv Hkey Hsets.
    rewrite Hv, load_env_file_Some in Hload. cbn [fst] in Hload.
    apply (file_sets_lookup text m') in Hsets; [|done].
    split; [by apply get_Some|by apply config_content_shows]. }
  assert (b = b'
          ↔ ∀ key, key ∈ known_keys → shown_value m key = shown_value m' key)
    as Hsame.
  { rewrite <- (config_content_inj m m' Hclean Hclean'). split.
    - intros <-. by apply (encode_inj _ _ b).
    - intros Heq. rewrite Heq in Henc. congruence. }
  eexists m, m', _, _. split_and!; [done|done| | |..].
  - rewrite serve_forever_responses, list_lookup_fmap, Hi.
    cbn [fmap option_fmap option_map fst snd]. f_equal.
    exact (do_GET_config_js _ _ _ Hload Henc).
  - rewrite serve_forever_responses, list_lookup_fmap, Hj.
    cbn [fmap option_fmap option_map fst snd]. f_equal.
    exact (do_GET_config_js _ _ _ Hload' Henc').
  - exact Henc.
  - exact Henc'.
  - intros text key value. by apply Hshow.
  - intros text key value. by apply Hshow'.
  - exact Hsame.
  - intros text text' key value value' Ht Ht' Hkey Hsets Hsets' Hne Hb.
    cbn [body] in Hb. pose proof (proj1 Hsame Hb key Hkey) as Hk.
    destruct (Hshow w text key value Hload Ht Hkey Hsets) as [Hv _].
    destruct (Hshow' w' text' key value' Hload' Ht' Hkey Hsets') as [Hv' _].
    congruence.
Qed.

Lemma C7_reload_per_request_witness :
  ∃ r r',
    (serve_forever
       [(World (lit "webapp.env") (Some (lit "DEBUG_MODE=false")) (λ _, None) [],
         lit "/config.js");
        (World (lit "webapp.env") (Some (lit "DEBUG_MODE=true")) (λ _, None) [],
         lit "/config.js")]).1 !! 0 = Some (Ok r) ∧
    (serve_forever
       [(World (lit "webapp.env") (Some (lit "DEBUG_MODE=false")) (λ _, None) [],
         lit "/config.js");
        (World (lit "webapp.env") (Some (lit "DEBUG_MODE=true")) (λ _, None) [],
         lit "/config.js")]).1 !! 1 = Some (Ok r') ∧
    (∃ env_vars,
       (load_env_file (lit "webapp.env") (Some (lit "DEBUG_MODE=false"))).1
       = Ok env_vars ∧
       encode (config_content env_vars) = Ok (body r) ∧
       occurs_in (config_line (lit "DEBUG_MODE") (lit "false"))
         (config_content env_vars)) ∧
    (∃ env_vars',
       (load_env_file (lit "webapp.env") (Some (lit "DEBUG_MODE=true"))).1
       = Ok env_vars' ∧
       encode (config_content env_vars') = Ok (body r') ∧
       occurs_in (config_line (lit "DEBUG_MODE") (lit "true"))
         (config_content env_vars')) ∧
    body r ≠ body r'.
Proof.
  assert (file_sets (lit "DEBUG_MODE=false") (lit "DEBUG_MODE") (lit "false"))
    as Hf.
  { exists [], (lit "DEBUG_MODE=false"), [].
    split_and!; [reflexivity| |by intros ? ? ?%elem_of_nil].
    exists (lit "DEBUG_MODE"), (lit "false").
    split_and!; [reflexivity| |reflexivity..].
    rewrite <- contains_not_elem. reflexivity. }
  assert (file_sets (lit "DEBUG_MODE=true") (lit "DEBUG_MODE") (lit "true"))
    as Ht.
  { exists [], (lit "DEBUG_MODE=true"), [].
    split_and!; [reflexivity| |by intros ? ? ?%elem_of_nil].
    exists (lit "DEBUG_MODE"), (lit "true").
    split_and!; [reflexivity| |reflexivity..].
    rewrite <- contains_not_elem. reflexivity. }
  destruct (C7_reload_per_request
              [(World (lit "webapp.env") (Some (lit "DEBUG_MODE=false"))
                  (λ _, None) [], lit "/config.js");
               (World (lit "webapp.env") (Some (lit "DEBUG_MODE=true"))
                  (λ _, None) [], lit "/config.js")]
              0 1
              (World (lit "webapp.env") (Some (lit "DEBUG_MODE=false"))
                 (λ _, None) [])
              (World (lit "webapp.env") (Some (lit "DEBUG_MODE=true"))
                 (λ _, None) []))
    as (m & m' & r & r' & Hload & Hload' & Hr & Hr' & Henc & Henc'
        & Hshow & Hshow' & _ & Hdiffer).
  - reflexivity.
  - reflexivity.
  - apply (bool_decide_unpack _). vm_compute. exact I.
  - apply (bool_decide_unpack _). vm_compute. exact I.
  - exists r, r'. split_and!.
    + exact Hr.
    + exact Hr'.
    + exists m. split_and!; [done..|].
      by apply (Hshow (lit "DEBUG_MODE=false") (lit "DEBUG_MODE") (lit "false"));
        [reflexivity|apply (bool_decide_unpack _); vm_compute|].
    + exists m'. split_and!; [done..|].
      by apply (Hshow' (lit "DEBUG_MODE=true") (lit "DEBUG_MODE") (lit "true"));
        [reflexivity|apply (bool_decide_unpack _); vm_compute|].
    + apply (Hdiffer (lit "DEBUG_MODE=false") (lit "DEBUG_MODE=true")
               (lit "DEBUG_MODE") (lit "false") (lit "true"));
        [reflexivity|reflexivity|apply (bool_decide_unpack _); by vm_compute
        |done|done|].
      vm_compute. discriminate.
Defined.
